(** * noiseless: the parallel log filter of [src/log/stash.py]

    A shallow embedding of [Logstash.filter], [Logstash._parallel_filter],
    [Logstash.worker_function] and [Logstash.get_info], followed by the
    properties of the filter pipeline. [Logstash._compute_file_hash],
    [Logstash._count_lines], [update_progress_bar] and [CLI.version] of
    [src/cli/cli.py] are embedded as well.

    Conventions.
    - A Python [str] is a [string]; the log is read and written in text mode
      on a POSIX host (reading maps CR LF and CR to LF, writing maps
      nothing).
    - A Python [dict] is an association list in insertion order: the order
      of [filter_counts.items()] decides the order of the keys of [hits].
    - A Python [set] is the duplicate-free list of its elements in the order
      in which the process iterates it.  That order is not fixed by the
      language, so it is a field of the environment.
    - An exception is a value of [exn]; code that may raise returns [res].
    - The file system is a finite map from paths to files and a finite set
      of directories.
    - [json.load], [json.dump], [xxhash], the clock and [cpu_count] are the
      environment's.  The tqdm progress bar only displays and is left out. *)

From Stdlib Require Import String Ascii List Arith Lia Bool Permutation Sorted.
From stdpp Require Import gmap strings pretty.
Import ListNotations.

Set Warnings "-register-all".

Open Scope string_scope.
Open Scope list_scope.
Open Scope nat_scope.

(** ** Python values the filter handles *)

(** An element of the filter set.  [json.load] yields [str] keys for an
    object; for an array, [set(filters)] holds its scalar elements, which
    may be numbers or [None].  [True] and [False] hash and compare equal to
    [1] and [0] and are kept as these. *)
Inductive key : Type :=
  | KStr (s : string)
  | KInt (n : Z)
  | KNone.

#[global] Instance key_eq_dec : EqDecision key.
Proof. solve_decision. Defined.

Definition key_eqb (a b : key) : bool := bool_decide (a = b).

(** What [json.load] returns. Numbers are integers here: a float key
    behaves as an integer key does in every operation of the filter. *)
Inductive json : Type :=
  | JNull
  | JBool (b : bool)
  | JNum (n : Z)
  | JStr (s : string)
  | JArr (l : list json)
  | JObj (l : list (string * json)).

Inductive exn : Type :=
  | TypeError (msg : string)
  | AttributeError (msg : string)
  | KeyError (k : key)
  | OSError (msg : string)
  | UnicodeDecodeError (msg : string).

(** [repr] of a key, as far as the messages below need it. *)
Definition key_type_name (k : key) : string :=
  match k with
  | KStr _ => "str"
  | KInt _ => "int"
  | KNone => "NoneType"
  end.

(** [str(e)]; the text of a [KeyError] is the [repr] of the key, of which
    only the string case is spelled out. *)
Definition exn_str (e : exn) : string :=
  match e with
  | TypeError msg => msg
  | AttributeError msg => msg
  | OSError msg => msg
  | UnicodeDecodeError msg => msg
  | KeyError (KStr s) => "'" +:+ s +:+ "'"
  | KeyError k => key_type_name k
  end.

Inductive res (A : Type) : Type :=
  | Return (a : A)
  | Raise (e : exn).
Arguments Return {A} a.
Arguments Raise {A} e.

Definition bind {A B : Type} (m : res A) (f : A -> res B) : res B :=
  match m with
  | Return a => f a
  | Raise e => Raise e
  end.

Notation "'try!' x ':=' m 'in' k" := (bind m (fun x => k))
  (at level 10, x name, m at level 100, k at level 200).

(** ** Strings *)

Definition LF : ascii := Ascii.ascii_of_nat 10.
Definition CR : ascii := Ascii.ascii_of_nat 13.
Definition NL : string := String LF EmptyString.

(** [sub in s] for two [str]: [sub] occurs in [s] as a substring. *)
Fixpoint contains (sub s : string) : bool :=
  String.prefix sub s ||
  match s with
  | EmptyString => false
  | String _ rest => contains sub rest
  end.

(** [key in line]: the left operand of [in] on a [str] has to be a [str]. *)
Definition key_in (k : key) (line : string) : res bool :=
  match k with
  | KStr s => Return (contains s line)
  | _ => Raise (TypeError ("'in <string>' requires string as left operand, not "
                            +:+ key_type_name k))
  end.

(** ** Dictionaries from keys to counts, in insertion order *)

Definition dict : Type := list (key * nat).

(** [d.get(k)] *)
Fixpoint dict_lookup (d : dict) (k : key) : option nat :=
  match d with
  | [] => None
  | (k', v) :: rest => if key_eqb k' k then Some v else dict_lookup rest k
  end.

(** [d.get(k, dflt)] *)
Definition dict_get (d : dict) (k : key) (dflt : nat) : nat :=
  match dict_lookup d k with
  | Some v => v
  | None => dflt
  end.

(** [d[k] = v]: an existing key keeps its place, a new one goes last. *)
Fixpoint dict_set (d : dict) (k : key) (v : nat) : dict :=
  match d with
  | [] => [(k, v)]
  | (k', v') :: rest =>
      if key_eqb k' k then (k', v) :: rest else (k', v') :: dict_set rest k v
  end.

(** [d[k]], which raises [KeyError] on a missing key. *)
Definition dict_getitem (d : dict) (k : key) : res nat :=
  match dict_lookup d k with
  | Some v => Return v
  | None => Raise (KeyError k)
  end.

(** [{key: 0 for key in filter_keys}] *)
Definition zero_counts (filter_keys : list key) : dict :=
  fold_left (fun d k => dict_set d k 0) filter_keys [].

Definition dict_keys (d : dict) : list key := map fst d.
Definition dict_values (d : dict) : list nat := map snd d.

(** [sum(d.values())] *)
Definition dict_total (d : dict) : nat := list_sum (dict_values d).

(** ** The worker *)

(** The two locals of [worker_function] that its loops update. *)
Record wstate : Type := mk_wstate {
  filtered_lines : list string;
  local_counts : dict
}.

(** [for key in filter_keys: if key in line: ...; break], the inner loop
    for one line. The [break] is the missing recursive call. *)
Fixpoint for_keys (filter_keys : list key) (line : string) (st : wstate)
  : res wstate :=
  match filter_keys with
  | [] => Return st
  | k :: ks =>
      try! hit := key_in k line in
      if hit : bool then
        try! c := dict_getitem (local_counts st) k in
        Return (mk_wstate (filtered_lines st ++ [line +:+ NL])
                          (dict_set (local_counts st) k (c + 1)))
      else for_keys ks line st
  end.

(** [for line in lines: ...], the outer loop. *)
Fixpoint for_lines (filter_keys : list key) (lines : list string) (st : wstate)
  : res wstate :=
  match lines with
  | [] => Return st
  | line :: rest =>
      try! st' := for_keys filter_keys line st in
      for_lines filter_keys rest st'
  end.

(** The second component of what a worker returns: the local counts, or the
    string of the [except] branch. *)
Inductive worker_counts : Type :=
  | Counts (d : dict)
  | ErrorStr (s : string).

(** The body of the [try] of [worker_function]. *)
Definition worker_body (lines : list string) (filter_keys : list key)
  : res (list string * worker_counts) :=
  try! st := for_lines filter_keys lines (mk_wstate [] (zero_counts filter_keys)) in
  Return (filtered_lines st, Counts (local_counts st)).

(** [worker_function((lines, filter_keys))], with its [except Exception]. *)
Definition worker_function (args : list string * list key)
  : list string * worker_counts :=
  match worker_body (fst args) (snd args) with
  | Return r => r
  | Raise e => ([], ErrorStr ("Error: " +:+ exn_str e))
  end.

(** ** Partitioning *)

(** [range(start, stop, step)] for a positive [step]; at most [stop]
    indices lie below [stop], which bounds the recursion. *)
Fixpoint range_from (fuel start stop step : nat) : list nat :=
  match fuel with
  | 0 => []
  | S fuel' =>
      if start <? stop then start :: range_from fuel' (start + step) stop step
      else []
  end.

Definition range (start stop step : nat) : list nat :=
  range_from stop start stop step.

(** [lines[i:j]] *)
Definition slice {A : Type} (l : list A) (i j : nat) : list A :=
  firstn (j - i) (skipn i l).

(** [chunk_size = max(1, total_lines // num_workers)] *)
Definition chunk_size (total_lines num_workers : nat) : nat :=
  Nat.max 1 (total_lines / num_workers).

(** The chunks handed to [pool.apply_async], in the order of the loop
    [for i in range(0, total_lines, chunk_size)]. *)
Definition partitions (lines : list string) (num_workers : nat)
  : list (list string) :=
  let total_lines := length lines in
  let cs := chunk_size total_lines num_workers in
  map (fun i => slice lines i (i + cs)) (range 0 total_lines cs).

(** ** Collecting the results *)

(** The variables the collecting loop of [_parallel_filter] updates:
    what has been written to [outfile], [matched_lines], [filter_counts],
    and what has been written to [sys.stderr]. *)
Record agg : Type := mk_agg {
  outfile : string;
  matched_lines : nat;
  filter_counts : dict;
  stderr : list string
}.

(** [worker_counts.items()]: a [str] has no such method. *)
Definition items (wc : worker_counts) : res (list (key * nat)) :=
  match wc with
  | Counts d => Return d
  | ErrorStr _ => Raise (AttributeError "'str' object has no attribute 'items'")
  end.

(** [for key, count in ...: filter_counts[key] = filter_counts.get(key, 0) + count] *)
Definition merge_counts (fc : dict) (its : list (key * nat)) : dict :=
  fold_left (fun d kc => dict_set d (fst kc) (dict_get d (fst kc) 0 + snd kc))
            its fc.

(** [outfile.writelines(filtered)] *)
Definition writelines (out : string) (filtered : list string) : string :=
  fold_left (fun o l => o +:+ l) filtered out.

(** One round of [for result in results: try: ... except Exception as e: ...].
    The statements before the one that raises have had their effect when
    the handler runs. *)
Definition collect_step (st : agg) (result : list string * worker_counts) : agg :=
  let filtered := fst result in
  let st1 := mk_agg (writelines (outfile st) filtered)
                    (matched_lines st + length filtered)
                    (filter_counts st) (stderr st) in
  match items (snd result) with
  | Return its =>
      mk_agg (outfile st1) (matched_lines st1)
             (merge_counts (filter_counts st1) its) (stderr st1)
  | Raise e =>
      mk_agg (outfile st1) (matched_lines st1) (filter_counts st1)
             (stderr st1 ++ ["Worker error: " +:+ exn_str e +:+ NL])
  end.

Definition collect (st : agg) (results : list (list string * worker_counts)) : agg :=
  fold_left collect_step results st.

(** [results]: the value [result.get()] returns at each position is the
    worker's return value for the chunk submitted at that position, in
    whatever order the workers finish. *)
Definition pool_results (chunks : list (list string)) (filter_keys : list key)
  : list (list string * worker_counts) :=
  map (fun chunk => worker_function (chunk, filter_keys)) chunks.

(** [num_workers = min(multiprocessing.cpu_count(), len(filter_keys) or 1)] *)
Definition num_workers (cpu_count : positive) (filter_keys : list key) : nat :=
  Nat.min (Pos.to_nat cpu_count)
          (if length filter_keys =? 0 then 1 else length filter_keys).

(** The part of [_parallel_filter] between reading the lines and returning:
    partition, run the pool, collect. *)
Definition filter_lines (cpu_count : positive) (lines : list string)
    (filter_keys : list key) : agg :=
  let chunks := partitions lines (num_workers cpu_count filter_keys) in
  collect (mk_agg "" 0 [] []) (pool_results chunks filter_keys).

(** ** Files *)

(** Text-mode reading with universal newlines: CR LF and a lone CR are read
    as LF. *)
Fixpoint universal_newlines (s : string) : string :=
  match s with
  | EmptyString => EmptyString
  | String c rest =>
      if Ascii.eqb c CR then
        match rest with
        | String c' rest' =>
            if Ascii.eqb c' LF then String LF (universal_newlines rest')
            else String LF (universal_newlines rest)
        | EmptyString => NL
        end
      else String c (universal_newlines rest)
  end.

(** The lines of [s], each with its terminating LF; the last one has none
    when [s] does not end in LF. [cur] is the line read so far. *)
Fixpoint split_lines (cur s : string) : list string :=
  match s with
  | EmptyString => if String.eqb cur "" then [] else [cur]
  | String c rest =>
      if Ascii.eqb c LF then (cur +:+ NL) :: split_lines "" rest
      else split_lines (cur +:+ String c "") rest
  end.

(** [infile.readlines()] of a file opened with [open(path, "r")]. *)
Definition readlines (content : string) : list string :=
  split_lines "" (universal_newlines content).

(** [sum(1 for _ in f)] of a file opened with [open(path, "rb")]. *)
Definition count_lines (content : string) : nat :=
  length (split_lines "" content).

Record file : Type := mk_file {
  f_content : string;
  f_ctime : nat;
  f_mtime : nat
}.

Record fs : Type := mk_fs {
  files : gmap string file;
  dirs : gset string
}.

(** [Path.exists()] *)
Definition path_exists (s : fs) (p : string) : bool :=
  bool_decide (is_Some (files s !! p)) || bool_decide (p ∈ dirs s).

(** [os.makedirs(p, exist_ok=True)]; the parents are not tracked. *)
Definition makedirs (s : fs) (p : string) : fs :=
  mk_fs (files s) ({[ p ]} ∪ dirs s).

(** The state of the file system once a file opened with [open(p, "w")]
    holds [content] and is closed, at time [t]. *)
Definition write_file (s : fs) (p content : string) (t : nat) : fs :=
  mk_fs (<[ p := mk_file content t t ]> (files s)) (dirs s).

(** ** Paths *)

(** [Path(p).name] for a path that does not end in a slash. *)
Fixpoint path_name_from (acc p : string) : string :=
  match p with
  | EmptyString => acc
  | String c rest =>
      if Ascii.eqb c "/" then path_name_from "" rest
      else path_name_from (acc +:+ String c "") rest
  end.

Definition path_name (p : string) : string := path_name_from "" p.

(** [name.rfind(".")] *)
Fixpoint rfind_dot (name : string) (i : nat) (found : option nat) : option nat :=
  match name with
  | EmptyString => found
  | String c rest =>
      rfind_dot rest (S i) (if Ascii.eqb c "." then Some i else found)
  end.

(** [Path(p).stem]: the name without its last suffix; a dot that starts or
    ends the name opens no suffix. *)
Definition path_stem (p : string) : string :=
  let name := path_name p in
  match rfind_dot name 0 None with
  | Some i =>
      if (0 <? i) && (i <? String.length name - 1) then String.substring 0 i name
      else name
  | None => name
  end.

(** ** The environment of one call *)

(** [file_info] is the dictionary [get_info] returns. *)
Record file_info : Type := mk_file_info {
  file_name : string;
  file_size : string;
  created_at : string;
  modified_at : string;
  hash : string;
  lines : nat + string
}.

Inductive info_result : Type :=
  | InfoError (msg : string)
  | Info (i : file_info).

(** The result payload. [hits] is a dictionary whose first key is
    ["total"]. *)
Record payload : Type := mk_payload {
  hits : dict;
  meta_filter : string;
  meta_filtered_at : string;
  meta_file : info_result
}.

Record env : Type := mk_env {
  directory : string;            (* self.directory *)
  cpu_count : positive;          (* multiprocessing.cpu_count() *)
  now : nat;                     (* datetime.now(), first call *)
  now_end : nat;                 (* datetime.now(), second call *)
  strftime_stamp : nat -> string; (* "%Y%m%d_%H%M%S" *)
  strftime_meta : nat -> string;  (* "%d-%m-%Y %H:%M:%S" *)
  json_load : string -> res json + string;
                                 (* json.load: a value, another exception,
                                    or the text of a JSONDecodeError *)
  json_dump : payload -> string; (* json.dump(..., indent=4) *)
  set_order : list key -> list key;
                                 (* the iteration order of a set built from
                                    these elements *)
  xxh3_128 : string -> string;   (* xxhash.xxh3_128(...).hexdigest() *)
  stat_dir : string -> nat * nat * nat
                                 (* st_size, st_ctime and st_mtime of a
                                    directory *)
}.

(** ** [get_info] *)

Definition is_a_directory (p : string) : string :=
  "[Errno 21] Is a directory: '" +:+ p +:+ "'".

Definition get_info (e : env) (s : fs) (file_path : string) : info_result :=
  if negb (path_exists s file_path) then
    InfoError ("Log file '" +:+ file_path +:+ "' not found.")
  else
    match files s !! file_path with
    | Some f =>
        Info (mk_file_info
                (path_name file_path)
                (pretty (String.length (f_content f)) +:+ " bytes")
                (strftime_meta e (f_ctime f))
                (strftime_meta e (f_mtime f))
                (xxh3_128 e (f_content f))
                (inl (count_lines (f_content f))))
    | None =>
        let '(size, ctime, mtime) := stat_dir e file_path in
        Info (mk_file_info
                (path_name file_path)
                (pretty size +:+ " bytes")
                (strftime_meta e ctime)
                (strftime_meta e mtime)
                ("Error computing hash: " +:+ is_a_directory file_path)
                (inr ("Error counting lines: " +:+ is_a_directory file_path)))
    end.

(** ** [_parallel_filter] *)

(** [open(p, "r")], as far as the content read later is concerned. *)
Definition open_read (s : fs) (p : string) : res unit :=
  match files s !! p with
  | Some _ => Return tt
  | None => Raise (OSError (is_a_directory p))
  end.

(** [open(p, "w")]: the file is created or truncated. *)
Definition open_write (s : fs) (p : string) (t : nat) : res fs :=
  if bool_decide (p ∈ dirs s) then Raise (OSError (is_a_directory p))
  else Return (write_file s p "" t).

Definition read_content (s : fs) (p : string) : string :=
  match files s !! p with
  | Some f => f_content f
  | None => ""
  end.

(** What [_parallel_filter] leaves behind and returns. [pf_submitted] counts
    the calls of [pool.apply_async]. *)
Record pf_out : Type := mk_pf_out {
  pf_fs : fs;
  pf_stderr : list string;
  pf_submitted : nat;
  pf_matched_lines : nat;
  pf_filter_counts : dict
}.

Definition _parallel_filter (e : env) (s : fs) (log_file output_file : string)
    (filter_keys : list key) : res pf_out :=
  try! _u := open_read s log_file in
  try! s1 := open_write s output_file (now e) in
  let lines := readlines (read_content s1 log_file) in
  let chunks := partitions lines (num_workers (cpu_count e) filter_keys) in
  let st := filter_lines (cpu_count e) lines filter_keys in
  Return (mk_pf_out (write_file s1 output_file (outfile st) (now_end e))
                    (stderr st) (length chunks)
                    (matched_lines st) (filter_counts st)).

(** ** [filter] *)

(** [set(filters)]: the elements of an iterable, which have to be hashable. *)
Definition iterate (j : json) : res (list json) :=
  match j with
  | JObj l => Return (map (fun kv => JStr (fst kv)) l)
  | JArr l => Return l
  | JStr s => Return (map (fun c => JStr (String c "")) (list_ascii_of_string s))
  | JNull => Raise (TypeError "'NoneType' object is not iterable")
  | JBool _ => Raise (TypeError "'bool' object is not iterable")
  | JNum _ => Raise (TypeError "'int' object is not iterable")
  end.

Definition hashable (j : json) : res key :=
  match j with
  | JNull => Return KNone
  | JBool b => Return (KInt (if b then 1 else 0))
  | JNum n => Return (KInt n)
  | JStr s => Return (KStr s)
  | JArr _ => Raise (TypeError "unhashable type: 'list'")
  | JObj _ => Raise (TypeError "unhashable type: 'dict'")
  end.

Fixpoint hash_all (l : list json) : res (list key) :=
  match l with
  | [] => Return []
  | j :: rest =>
      try! k := hashable j in
      try! ks := hash_all rest in
      Return (k :: ks)
  end.

Definition py_set (e : env) (filters : json) : res (list key) :=
  try! elems := iterate filters in
  try! ks := hash_all elems in
  Return (set_order e (remove_dups ks)).

(** [sorted(d.items(), key=lambda item: item[1], reverse=True)]: a stable
    sort, items of equal count keep their order. *)
Fixpoint insert_desc (x : key * nat) (l : list (key * nat)) : list (key * nat) :=
  match l with
  | [] => [x]
  | y :: rest =>
      if snd y <=? snd x then x :: y :: rest else y :: insert_desc x rest
  end.

Fixpoint sorted_desc (l : list (key * nat)) : list (key * nat) :=
  match l with
  | [] => []
  | x :: rest => insert_desc x (sorted_desc rest)
  end.

(** [{key: count for key, count in its}] and [{..., **d}] *)
Definition dict_update (d : dict) (its : list (key * nat)) : dict :=
  fold_left (fun d kc => dict_set d (fst kc) (snd kc)) its d.

(** The value of ["hits"] in the result payload. *)
Definition build_hits (matched : nat) (counts : dict) : dict :=
  let positive_sorted :=
    dict_update [] (List.filter (fun kc => 0 <? snd kc) (sorted_desc counts)) in
  dict_update [(KStr "total", matched)] positive_sorted.

Inductive filter_result : Type :=
  | RError (msg : string)      (* {"error": msg} *)
  | RWarning (msg : string)    (* {"warning": msg} *)
  | RPayload (p : payload).

(** A call of [filter]: the file system and the standard error it leaves,
    the number of chunks it submitted to the pool, and what it returns or
    raises. *)
Record outcome : Type := mk_outcome {
  o_fs : fs;
  o_stderr : list string;
  o_submitted : nat;
  o_result : res filter_result
}.

(** [log_folder], [output_file] and [metadata_file] of [filter]. *)
Definition log_folder (e : env) (log_file_path : string) : string :=
  directory e +:+ "/../../data/filtered_logs/" +:+ path_stem log_file_path.

Definition output_file (e : env) (log_file_path : string) : string :=
  log_folder e log_file_path +:+ "/" +:+ path_stem log_file_path +:+ "_"
    +:+ strftime_stamp e (now e) +:+ ".filtered.log".

Definition metadata_file (e : env) (log_file_path : string) : string :=
  log_folder e log_file_path +:+ "/" +:+ path_stem log_file_path +:+ "_"
    +:+ strftime_stamp e (now e) +:+ ".metadata.json".

Definition filter (e : env) (s : fs) (log_file_path filter_file_path : string)
    (overwrite : bool) : outcome :=
  let stop r := mk_outcome s [] 0 r in
  if negb (path_exists s log_file_path) then
    stop (Return (RError ("Log file '" +:+ log_file_path +:+ "' not found.")))
  else if negb (path_exists s filter_file_path) then
    stop (Return (RError ("Filter file '" +:+ filter_file_path +:+ "' not found.")))
  else
    match open_read s filter_file_path with
    | Raise ex => stop (Raise ex)
    | Return _ =>
    match json_load e (read_content s filter_file_path) with
    | inr msg => stop (Return (RError ("Invalid JSON in filter file: " +:+ msg)))
    | inl (Raise ex) => stop (Raise ex)
    | inl (Return filters) =>
    match py_set e filters with
    | Raise ex => stop (Raise ex)
    | Return filter_keys =>
      if length filter_keys =? 0 then
        stop (Return (RWarning
          "No filter keys found in filter file. Skipping filtering."))
      else if path_exists s (log_folder e log_file_path) && negb overwrite then
        stop (Return (RError ("Folder '" +:+ log_folder e log_file_path
                +:+ "' already exists. Use overwrite=True to proceed.")))
      else
        let s1 := makedirs s (log_folder e log_file_path) in
        match _parallel_filter e s1 log_file_path
                (output_file e log_file_path) filter_keys with
        | Raise ex => mk_outcome s1 [] 0 (Raise ex)
        | Return r =>
            let result_payload :=
              mk_payload
                (build_hits (pf_matched_lines r) (pf_filter_counts r))
                (path_name filter_file_path)
                (strftime_meta e (now_end e))
                (get_info e (pf_fs r) log_file_path) in
            match open_write (pf_fs r) (metadata_file e log_file_path)
                    (now_end e) with
            | Raise ex =>
                mk_outcome (pf_fs r) (pf_stderr r) (pf_submitted r) (Raise ex)
            | Return _ =>
                mk_outcome
                  (write_file (pf_fs r) (metadata_file e log_file_path)
                              (json_dump e result_payload) (now_end e))
                  (pf_stderr r) (pf_submitted r)
                  (Return (RPayload result_payload))
            end
        end
    end end end.

(** * Notions used in the statements *)

(** A dictionary given by its keys and a function to the counts. *)
Definition tabulate (ss : list string) (f : string -> nat) : dict :=
  map (fun s => (KStr s, f s)) ss.

(** The first of the keys [ss], in their order, that occurs in [line]. *)
Definition first_key_in (ss : list string) (line : string) : option string :=
  List.find (fun s => contains s line) ss.

(** The lines that contain at least one key, in their order. *)
Definition matching (ss : list string) (lines : list string) : list string :=
  List.filter (fun l => match first_key_in ss l with Some _ => true | None => false end)
              lines.

(** The number of lines whose first key is [s]. *)
Definition credited (ss : list string) (lines : list string) (s : string) : nat :=
  length (List.filter
            (fun l => match first_key_in ss l with
                      | Some s' => String.eqb s s'
                      | None => false
                      end) lines).

(** [line + "\n"] *)
Definition add_newline (l : string) : string := l +:+ NL.

(** What each partition yields when all keys are strings. *)
Definition partition_result (ss : list string) (chunk : list string)
  : list string * worker_counts :=
  (map add_newline (matching ss chunk), Counts (tabulate ss (credited ss chunk))).

(** What the collecting loop relies on in a worker's return value. *)
Definition result_ok (r : list string * worker_counts) : Prop :=
  match snd r with
  | Counts d => dict_total d = length (fst r)
  | ErrorStr _ => fst r = []
  end.

(** The invariant of the collecting loop: the counts add up to the number
    of lines written, and no key occurs twice in [filter_counts]. *)
Definition agg_ok (st : agg) : Prop :=
  dict_total (filter_counts st) = matched_lines st /\
  NoDup (dict_keys (filter_counts st)).

(** The result of a partition whose worker raised. *)
Definition is_failed (r : list string * worker_counts) : bool :=
  match snd r with
  | ErrorStr _ => true
  | Counts _ => false
  end.

(** The results of the partitions that did not fault, in partition order. *)
Definition completed (rs : list (list string * worker_counts))
  : list (list string * worker_counts) :=
  List.filter (fun r => negb (is_failed r)) rs.

(** The number of partitions whose worker raised. *)
Definition failed_partitions (rs : list (list string * worker_counts)) : nat :=
  length (List.filter is_failed rs).

(** What the collecting loop writes to the standard error for such a result. *)
Definition worker_error_line : string :=
  "Worker error: 'str' object has no attribute 'items'" +:+ NL.

(** A failed partition hands over no lines. *)
Definition failed_is_empty (r : list string * worker_counts) : Prop :=
  is_failed r = true -> fst r = [].

(** Descending order of the counts. *)
Definition desc (a b : key * nat) : Prop := snd b <= snd a.

(** The items of [counts] with a positive count, largest count first. *)
Definition positive_sorted (counts : dict) : list (key * nat) :=
  List.filter (fun kc => 0 <? snd kc) (sorted_desc counts).

(** The key under which [hits] holds the number of matched lines. *)
Definition total_key : key := KStr "total".

(** The lines [_parallel_filter] reads: the log is read after the output
    file has been opened for writing. *)
Definition lines_read (e : env) (s : fs) (log_file out_file : string)
  : list string :=
  readlines (read_content (write_file s out_file "" (now e)) log_file).

(** The filter keys of a call, in the order in which the workers iterate
    them. *)
Definition run_keys (e : env) (s : fs) (filter_file_path : string) : list key :=
  match json_load e (read_content s filter_file_path) with
  | inl (Return filters) =>
      match py_set e filters with
      | Return ks => ks
      | Raise _ => []
      end
  | _ => []
  end.

(** The lines of a call. *)
Definition run_lines (e : env) (s : fs) (log_file_path : string) : list string :=
  lines_read e (makedirs s (log_folder e log_file_path)) log_file_path
             (output_file e log_file_path).

(** The results of the partitions of a call, in partition order. *)
Definition run_results (e : env) (s : fs) (log_file_path filter_file_path : string)
  : list (list string * worker_counts) :=
  let keys := run_keys e s filter_file_path in
  pool_results
    (partitions (run_lines e s log_file_path) (num_workers (cpu_count e) keys))
    keys.

(** The state in which the collecting loop of a call ends. *)
Definition run_state (e : env) (s : fs) (log_file_path filter_file_path : string)
  : agg :=
  filter_lines (cpu_count e) (run_lines e s log_file_path)
               (run_keys e s filter_file_path).

(** The value of ["total"] in ["hits"]. *)
Definition hits_total (h : dict) : nat := dict_get h total_key 0.

(** The sum of the counts under the keys of [hits] other than ["total"]. *)
Definition hits_key_sum (h : dict) : nat :=
  list_sum (map snd (List.filter (fun kc => negb (key_eqb (fst kc) total_key)) h)).

(** The four validation failures and the value [filter] returns for each,
    with the conditions under which the code reaches them. *)
Inductive validation_failure (e : env) (s : fs) (lp fp : string) (ow : bool)
  : filter_result -> Prop :=
  | LogNotFound :
      path_exists s lp = false ->
      validation_failure e s lp fp ow
        (RError ("Log file '" +:+ lp +:+ "' not found."))
  | FilterNotFound :
      path_exists s lp = true ->
      path_exists s fp = false ->
      validation_failure e s lp fp ow
        (RError ("Filter file '" +:+ fp +:+ "' not found."))
  | InvalidFilterFormat (msg : string) :
      path_exists s lp = true ->
      is_Some (files s !! fp) ->
      json_load e (read_content s fp) = inr msg ->
      validation_failure e s lp fp ow
        (RError ("Invalid JSON in filter file: " +:+ msg))
  | EmptyFilterSet (filters : json) :
      path_exists s lp = true ->
      is_Some (files s !! fp) ->
      json_load e (read_content s fp) = inl (Return filters) ->
      py_set e filters = Return [] ->
      validation_failure e s lp fp ow
        (RWarning "No filter keys found in filter file. Skipping filtering.")
  | OutputConflict (filters : json) (keys : list key) :
      path_exists s lp = true ->
      is_Some (files s !! fp) ->
      json_load e (read_content s fp) = inl (Return filters) ->
      py_set e filters = Return keys ->
      keys <> [] ->
      path_exists s (log_folder e lp) = true ->
      ow = false ->
      validation_failure e s lp fp ow
        (RError ("Folder '" +:+ log_folder e lp
                 +:+ "' already exists. Use overwrite=True to proceed.")).

(** ** Concrete calls *)

(** The files, hosts and payloads of the examples. The clock of a host is a
    number of seconds; its stamp is written [T<n>]. *)
Module Scenario.

(** The double quote. *)
Definition quote : string := String (Ascii.ascii_of_nat 34) "".

Definition json_key (k : string) : string := quote +:+ k +:+ quote +:+ ": true".

(** The texts of the filter files used below. *)
Definition levels_text : string :=
  "{" +:+ json_key "ERROR" +:+ ", " +:+ json_key "WARN" +:+ "}".
Definition total_text : string :=
  "{" +:+ json_key "total" +:+ ", " +:+ json_key "err" +:+ "}".
Definition overlap_text : string :=
  "{" +:+ json_key "ERR" +:+ ", " +:+ json_key "ERROR" +:+ "}".
Definition absent_text : string := "{" +:+ json_key "zzz" +:+ "}".
Definition number_text : string := "[7]".
Definition empty_text : string := "{}".
Definition broken_text : string := "{".

(** [json.load] on these texts. *)
Definition load (text : string) : res json + string :=
  if String.eqb text levels_text then
    inl (Return (JObj [("ERROR", JBool true); ("WARN", JBool true)]))
  else if String.eqb text total_text then
    inl (Return (JObj [("total", JBool true); ("err", JBool true)]))
  else if String.eqb text overlap_text then
    inl (Return (JObj [("ERR", JBool true); ("ERROR", JBool true)]))
  else if String.eqb text absent_text then
    inl (Return (JObj [("zzz", JBool true)]))
  else if String.eqb text number_text then
    inl (Return (JArr [JNum 7]))
  else if String.eqb text empty_text then
    inl (Return (JObj []))
  else
    inr "Expecting property name enclosed in double quotes: line 1 column 2 (char 1)".

(** A host with four processors whose sets iterate in the order [order]. *)
Definition host (order : list key -> list key) (t : nat) : env :=
  mk_env "/app/src/log" 4%positive t (t + 1)
         (fun n => "T" +:+ pretty n) (fun n => "at " +:+ pretty n)
         load (fun _ => "{}") order (fun _ => "00000000000000000000000000000000")
         (fun _ => (4096, 0, 0)).

Definition log_path : string := "/app/data/logs/app.log".
Definition filter_path : string := "/app/data/filters/f.json".

Definition text_of (lines : list string) : string :=
  fold_right (fun l acc => l +:+ NL +:+ acc) "" lines.

(** A file system that holds one log and one filter file. *)
Definition disk (log_lines : list string) (filter_text : string) : fs :=
  mk_fs (<[ log_path := mk_file (text_of log_lines) 10 20 ]>
          (<[ filter_path := mk_file filter_text 10 20 ]> ∅))
        ∅.

Definition same_order (l : list key) : list key := l.

Definition out_path : string :=
  "/app/src/log/../../data/filtered_logs/app/app_T100.filtered.log".

Definition levels_lines : list string :=
  ["ERROR a"; "INFO b"; "ERROR c"; "WARN d"; "ERROR e"].

Definition app_info : info_result :=
  Info (mk_file_info "app.log" "38 bytes" "at 10" "at 20"
                     "00000000000000000000000000000000" (inl 5)).

Definition levels_payload : payload :=
  mk_payload [(total_key, 4); (KStr "ERROR", 3); (KStr "WARN", 1)]
             "f.json" "at 101" app_info.

(** The payload of a second call, one hundred seconds later. *)
Definition levels_payload_again : payload :=
  mk_payload [(total_key, 4); (KStr "ERROR", 3); (KStr "WARN", 1)]
             "f.json" "at 201" app_info.

End Scenario.

(** ** Notions for the worker *)

(** [isinstance(k, str)] *)
Definition is_str (k : key) : bool :=
  match k with
  | KStr _ => true
  | _ => false
  end.

(** [sub] occurs in [s] as a substring. *)
Definition occurs_in (sub s : string) : Prop :=
  exists pre post, s = pre +:+ sub +:+ post.

(** Every key has a counter in [d]. *)
Definition has_counters (keys : list key) (d : dict) : Prop :=
  forall k, In k keys -> dict_lookup d k <> None.

(** ** Notions for the collecting loop *)

(** The count a partition's result holds for [k]; a failed partition holds
    none. *)
Definition local_count (r : list string * worker_counts) (k : key) : nat :=
  match snd r with
  | Counts d => dict_get d k 0
  | ErrorStr _ => 0
  end.

(** The keys of a result's counts are distinct. *)
Definition distinct_keys (r : list string * worker_counts) : Prop :=
  match snd r with
  | Counts d => NoDup (dict_keys d)
  | ErrorStr _ => True
  end.

(** ** Notions for the filter file *)

(** A JSON value that can be a key of the filter set. *)
Definition scalar (j : json) : bool :=
  match j with
  | JArr _ | JObj _ => false
  | _ => true
  end.

(** A JSON value of which [set(filters)] can be built: an object, a string,
    or an array of scalars. *)
Definition key_collection (j : json) : bool :=
  match j with
  | JObj _ | JStr _ => true
  | JArr l => forallb scalar l
  | _ => false
  end.

(** ** Notions for reading the log *)

(** No carriage return occurs in [s]. *)
Fixpoint no_cr (s : string) : bool :=
  match s with
  | EmptyString => true
  | String c rest => negb (Ascii.eqb c CR) && no_cr rest
  end.

(** ** [_compute_file_hash] *)

(** An incremental hasher, as [xxhash.xxh3_128()] is one. *)
Record hasher : Type := mk_hasher {
  h_state : Type;
  h_new : h_state;                          (* xxhash.xxh3_128() *)
  h_update : h_state -> string -> h_state;  (* hasher.update(chunk) *)
  h_hexdigest : h_state -> string           (* hasher.hexdigest() *)
}.

(** [s[:n]] and [s[n:]] *)
Fixpoint string_take (n : nat) (s : string) : string :=
  match n, s with
  | S n', String c rest => String c (string_take n' rest)
  | _, _ => EmptyString
  end.

Fixpoint string_drop (n : nat) (s : string) : string :=
  match n, s with
  | S n', String c rest => string_drop n' rest
  | _, _ => s
  end.

(** [while chunk := f.read(chunk_size): hasher.update(chunk)]. A read at
    the end of the file, and a read of no bytes, return the empty string,
    which ends the loop; every other read moves on in the file, so the
    length of what is left bounds the number of rounds. *)
Fixpoint hash_chunks (H : hasher) (fuel chunk_size : nat) (rest : string)
    (h : h_state H) : h_state H :=
  match fuel with
  | 0 => h
  | S fuel' =>
      let chunk := string_take chunk_size rest in
      if String.eqb chunk "" then h
      else hash_chunks H fuel' chunk_size (string_drop chunk_size rest)
                       (h_update H h chunk)
  end.

(** The default of [chunk_size], 16 MiB. *)
Definition default_chunk_size : nat := 16 * 1024 * 1024.

Definition no_such_file (p : string) : string :=
  "[Errno 2] No such file or directory: '" +:+ p +:+ "'".

(** [_compute_file_hash(file_path, chunk_size)]: the digest, or the text of
    the exception [open] raised. *)
Definition _compute_file_hash (H : hasher) (s : fs) (file_path : string)
    (chunk_size : nat) : string :=
  match files s !! file_path with
  | Some f =>
      h_hexdigest H
        (hash_chunks H (S (String.length (f_content f))) chunk_size
                     (f_content f) (h_new H))
  | None =>
      "Error computing hash: "
      +:+ (if bool_decide (file_path ∈ dirs s) then is_a_directory file_path
           else no_such_file file_path)
  end.

(** Feeding a hasher in two steps is feeding it the whole at once, and
    feeding it nothing changes nothing. *)
Definition streaming (H : hasher) : Prop :=
  (forall h a b, h_update H (h_update H h a) b = h_update H h (a +:+ b)) /\
  (forall h, h_update H h "" = h).

(** ** [update_progress_bar] *)

(** What one [progress_queue.get(timeout=1)] yields: a number of lines, the
    string ["DONE"], or the exception of an empty queue. *)
Inductive queue_get : Type :=
  | Got (update : nat)
  | GotDone
  | TimedOut.

Definition is_done (g : queue_get) : bool :=
  match g with
  | GotDone => true
  | _ => false
  end.

(** The [while True] loop over the successive results of [get]: the values
    of [processed_lines] and of the bar at the [break]. Without a ["DONE"]
    the loop does not end. *)
Fixpoint progress_loop (gets : list queue_get) (processed_lines pbar : Z)
  : option (Z * Z) :=
  match gets with
  | [] => None
  | GotDone :: _ => Some (processed_lines, pbar)
  | Got update :: rest =>
      progress_loop rest (processed_lines + Z.of_nat update)%Z
                    (pbar + Z.of_nat update)%Z
  | TimedOut :: rest => progress_loop rest processed_lines pbar
  end.

(** [update_progress_bar(progress_queue, total_lines)]: where the bar
    stands in the end, and by how much the last [pbar.update] moved it. *)
Definition update_progress_bar (gets : list queue_get) (total_lines : nat)
  : option (Z * Z) :=
  match progress_loop gets 0%Z 0%Z with
  | Some (processed_lines, pbar) =>
      let last := (Z.of_nat total_lines - processed_lines)%Z in
      Some ((pbar + last)%Z, last)
  | None => None
  end.

(** The numbers the loop receives before the first ["DONE"]. *)
Fixpoint updates_before_done (gets : list queue_get) : list nat :=
  match gets with
  | [] => []
  | GotDone :: _ => []
  | Got update :: rest => update :: updates_before_done rest
  | TimedOut :: rest => updates_before_done rest
  end.

(** No line feed occurs in [s]. *)
Fixpoint no_lf (s : string) : bool :=
  match s with
  | EmptyString => true
  | String c rest => negb (Ascii.eqb c LF) && no_lf rest
  end.

(** The text of a file that holds [ls] as lines, each ended by a line
    feed. *)
Fixpoint join_lines (ls : list string) : string :=
  match ls with
  | [] => EmptyString
  | l :: rest => l +:+ NL +:+ join_lines rest
  end.

(** ** [CLI.version] of [src/cli/cli.py] *)

(** [s.split("\n")[0]] *)
Fixpoint first_line (s : string) : string :=
  match s with
  | EmptyString => EmptyString
  | String c rest =>
      if Ascii.eqb c LF then EmptyString else String c (first_line rest)
  end.

(** [s.find(sub)]: the first index at which [sub] starts, [None] for -1. *)
Fixpoint str_find (sub s : string) : option nat :=
  if String.prefix sub s then Some 0
  else match s with
       | EmptyString => None
       | String _ rest => option_map S (str_find sub rest)
       end.

(** [verbose in ("-v", "--verbose")] *)
Definition is_verbose (verbose : option string) : bool :=
  match verbose with
  | Some v => String.eqb v "-v" || String.eqb v "--verbose"
  | None => false
  end.

(** [version(verbose)]: what is handed to [console.print], given the text
    of [resources/version.txt] if that file exists. *)
Definition version (version_file : option string) (verbose : option string)
  : string :=
  match version_file with
  | None => "[red]noiseless: Version file not found.[/red]"
  | Some content =>
      let version_full := universal_newlines content in
      let version_stripped := first_line version_full in
      if is_verbose verbose then version_full
      else
        match str_find "(cli)" version_stripped with
        | Some cli_position => string_take cli_position version_stripped
        | None => version_stripped
        end
  end.

(** * Properties *)

(** ** Dictionaries *)

Lemma key_eqb_eq (a b : key) : key_eqb a b = true <-> a = b.
Proof. unfold key_eqb. apply bool_decide_eq_true. Qed.

Lemma key_eqb_refl (a : key) : key_eqb a a = true.
Proof. now apply key_eqb_eq. Qed.

Lemma key_eqb_neq (a b : key) : a <> b -> key_eqb a b = false.
Proof. intros H. unfold key_eqb. now apply bool_decide_eq_false. Qed.

Ltac key_cases a b :=
  let E := fresh "E" in
  destruct (key_eqb a b) eqn:E;
  [ apply key_eqb_eq in E | apply bool_decide_eq_false in E ].

Lemma dict_lookup_In (d : dict) (k : key) (v : nat) :
  dict_lookup d k = Some v -> In (k, v) d.
Proof.
  induction d as [| [k' v'] d IH]; simpl; [discriminate |].
  key_cases k' k.
  - intros [= ->]. subst. now left.
  - intros H. right. now apply IH.
Qed.

Lemma dict_lookup_None (d : dict) (k : key) :
  dict_lookup d k = None <-> ~ In k (dict_keys d).
Proof.
  induction d as [| [k' v'] d IH]; simpl.
  - tauto.
  - key_cases k' k.
    + split; [discriminate | intros H; exfalso; apply H; now left].
    + rewrite IH. split; [intros H [H1 | H1]; [congruence | tauto] | tauto].
Qed.

Lemma dict_lookup_set_eq (d : dict) (k : key) (v : nat) :
  dict_lookup (dict_set d k v) k = Some v.
Proof.
  induction d as [| [k' v'] d IH]; simpl.
  - now rewrite key_eqb_refl.
  - key_cases k' k; simpl.
    + subst. now rewrite key_eqb_refl.
    + rewrite (key_eqb_neq _ _ E). exact IH.
Qed.

Lemma dict_lookup_set_ne (d : dict) (k k' : key) (v : nat) :
  k <> k' -> dict_lookup (dict_set d k v) k' = dict_lookup d k'.
Proof.
  intros Hne. induction d as [| [k0 v0] d IH]; simpl.
  - now rewrite (key_eqb_neq _ _ Hne).
  - key_cases k0 k; simpl.
    + subst. now rewrite (key_eqb_neq _ _ Hne).
    + now rewrite IH.
Qed.

(** Setting a key keeps the keys and their order; a new key goes last. *)
Lemma dict_keys_set (d : dict) (k : key) (v : nat) :
  dict_keys (dict_set d k v) =
  match dict_lookup d k with
  | Some _ => dict_keys d
  | None => dict_keys d ++ [k]
  end.
Proof.
  induction d as [| [k' v'] d IH]; simpl; [reflexivity |].
  key_cases k' k; simpl; [reflexivity |].
  rewrite IH. now destruct (dict_lookup d k).
Qed.

Lemma dict_set_NoDup (d : dict) (k : key) (v : nat) :
  NoDup (dict_keys d) -> NoDup (dict_keys (dict_set d k v)).
Proof.
  intros H. rewrite dict_keys_set.
  destruct (dict_lookup d k) eqn:E; [exact H |].
  apply dict_lookup_None in E.
  apply NoDup_app. split; [exact H |]. split; [| apply NoDup_singleton].
  intros x Hx ->%list_elem_of_singleton. apply E.
  now apply list_elem_of_In.
Qed.

(** The sum of the values after [d[k] = v]. *)
Lemma dict_total_set (d : dict) (k : key) (v : nat) :
  dict_total (dict_set d k v) + dict_get d k 0 = dict_total d + v.
Proof.
  unfold dict_total, dict_values, dict_get.
  induction d as [| [k' v'] d IH]; simpl; [lia |].
  key_cases k' k; simpl; lia.
Qed.

Lemma merge_counts_total (its : list (key * nat)) (fc : dict) :
  dict_total (merge_counts fc its) = dict_total fc + list_sum (map snd its).
Proof.
  unfold merge_counts. revert fc.
  induction its as [| [k c] its IH]; intros fc; simpl; [lia |].
  rewrite IH. pose proof (dict_total_set fc k (dict_get fc k 0 + c)). lia.
Qed.

Lemma merge_counts_NoDup (its : list (key * nat)) (fc : dict) :
  NoDup (dict_keys fc) -> NoDup (dict_keys (merge_counts fc its)).
Proof.
  unfold merge_counts. revert fc.
  induction its as [| [k c] its IH]; intros fc H; simpl; [exact H |].
  apply IH. now apply dict_set_NoDup.
Qed.

Lemma zero_counts_from_zero (ks : list key) (d : dict) :
  Forall (fun kv => snd kv = 0) d ->
  Forall (fun kv => snd kv = 0) (fold_left (fun d k => dict_set d k 0) ks d).
Proof.
  revert d. induction ks as [| k ks IH]; intros d H; simpl; [exact H |].
  apply IH. clear IH. induction d as [| [k' v'] d IHd]; simpl.
  - now constructor.
  - inversion H as [| ? ? H1 H2]; subst. simpl in H1. subst.
    key_cases k' k; constructor; auto.
Qed.

Lemma zero_counts_total (ks : list key) : dict_total (zero_counts ks) = 0.
Proof.
  pose proof (zero_counts_from_zero ks [] (List.Forall_nil _)) as H.
  unfold zero_counts, dict_total, dict_values.
  induction H as [| [k v] d Hk Hd IH]; simpl in *; [reflexivity | lia].
Qed.

(** ** The worker: what one partition yields *)

Lemma tabulate_ext (ss : list string) (f g : string -> nat) :
  (forall s, In s ss -> f s = g s) -> tabulate ss f = tabulate ss g.
Proof.
  intros H. unfold tabulate. apply map_ext_in. intros s Hs. now rewrite H.
Qed.

Lemma dict_lookup_tabulate (ss : list string) (f : string -> nat) (s : string) :
  In s ss -> dict_lookup (tabulate ss f) (KStr s) = Some (f s).
Proof.
  induction ss as [| a ss IH]; simpl; [tauto |].
  intros H. key_cases (KStr a) (KStr s).
  - now injection E as ->.
  - destruct H as [-> | H]; [congruence | now apply IH].
Qed.

Lemma dict_set_tabulate (ss : list string) (f : string -> nat) (s : string) (v : nat) :
  NoDup ss -> In s ss ->
  dict_set (tabulate ss f) (KStr s) v =
  tabulate ss (fun s' => if String.eqb s' s then v else f s').
Proof.
  induction ss as [| a ss IH]; simpl; [tauto |].
  intros Hnd Hin. apply NoDup_cons in Hnd as [Ha Hnd].
  key_cases (KStr a) (KStr s).
  - injection E as ->. rewrite String.eqb_refl. f_equal.
    apply tabulate_ext. intros s' Hs'.
    destruct (String.eqb_spec s' s) as [-> |]; [| reflexivity].
    exfalso. apply Ha. now apply list_elem_of_In.
  - destruct Hin as [-> | Hin]; [congruence |].
    destruct (String.eqb_spec a s) as [-> |]; [congruence |].
    f_equal. now apply IH.
Qed.

Lemma zero_counts_tabulate (ss : list string) :
  NoDup ss -> zero_counts (map KStr ss) = tabulate ss (fun _ => 0).
Proof.
  intros Hnd. unfold zero_counts.
  enough (G : forall pre suf, NoDup (pre ++ suf) ->
            fold_left (fun d k => dict_set d k 0) (map KStr suf)
                      (tabulate pre (fun _ => 0))
            = tabulate (pre ++ suf) (fun _ => 0)).
  { apply (G [] ss). exact Hnd. }
  intros pre suf. revert pre.
  induction suf as [| a suf IH]; intros pre H; simpl.
  - now rewrite app_nil_r.
  - replace (dict_set (tabulate pre (fun _ => 0)) (KStr a) 0)
      with (tabulate (pre ++ [a]) (fun _ => 0)).
    + rewrite IH; rewrite <- app_assoc; [reflexivity | exact H].
    + apply NoDup_app in H as (_ & H & _).
      assert (Ha : ~ In a pre).
      { intros Hin. apply list_elem_of_In in Hin. apply (H a Hin). now left. }
      clear - Ha. induction pre as [| b pre IHp]; simpl; [reflexivity |].
      rewrite key_eqb_neq.
      * f_equal. apply IHp. intros Hin. apply Ha. now right.
      * intros [= ->]. apply Ha. now left.
Qed.

Lemma for_keys_strings (ss suf : list string) (line : string)
    (out : list string) (f : string -> nat) :
  NoDup ss -> (forall s, In s suf -> In s ss) ->
  for_keys (map KStr suf) line (mk_wstate out (tabulate ss f)) =
  Return (match first_key_in suf line with
          | Some s =>
              mk_wstate (out ++ [add_newline line])
                        (tabulate ss (fun s' => f s' + if String.eqb s' s then 1 else 0))
          | None => mk_wstate out (tabulate ss f)
          end).
Proof.
  intros Hnd. induction suf as [| a suf IH]; intros Hsub; simpl; [reflexivity |].
  destruct (contains a line) eqn:Hc; simpl.
  - unfold dict_getitem. rewrite dict_lookup_tabulate by (apply Hsub; now left).
    simpl. rewrite dict_set_tabulate by (auto; apply Hsub; now left).
    do 2 f_equal. apply tabulate_ext. intros s' _.
    destruct (String.eqb_spec s' a) as [-> |]; lia.
  - apply IH. intros s Hs. apply Hsub. now right.
Qed.

Lemma for_lines_strings (ss : list string) (lines : list string)
    (out : list string) (f : string -> nat) :
  NoDup ss ->
  for_lines (map KStr ss) lines (mk_wstate out (tabulate ss f)) =
  Return (mk_wstate (out ++ map add_newline (matching ss lines))
                    (tabulate ss (fun s => f s + credited ss lines s))).
Proof.
  intros Hnd. revert out f.
  induction lines as [| l lines IH]; intros out f; simpl.
  - rewrite app_nil_r. do 2 f_equal. apply tabulate_ext. intros s _.
    unfold credited. simpl. lia.
  - rewrite (for_keys_strings ss ss l out f Hnd) by auto. simpl.
    unfold matching, credited. simpl.
    destruct (first_key_in ss l) as [s |] eqn:Hf; simpl.
    + fold (matching ss lines). rewrite IH. rewrite <- app_assoc. simpl.
      do 2 f_equal. apply tabulate_ext. intros s' _.
      destruct (String.eqb s' s); simpl; unfold credited; lia.
    + fold (matching ss lines). rewrite IH.
      do 2 f_equal.
Qed.

(** Once a key has matched, the keys after it are not tested: they may
    even be keys whose test would raise. *)
Lemma later_keys_untested (ss : list string) (post : list key) (line s : string)
    (st : wstate) :
  first_key_in ss line = Some s ->
  for_keys (map KStr ss ++ post) line st = for_keys (map KStr ss) line st.
Proof.
  unfold first_key_in.
  induction ss as [| a ss IH]; simpl; [discriminate |].
  destruct (contains a line); simpl; [reflexivity | exact IH].
Qed.

(** For arbitrary keys: a round of the inner loop that does not raise adds
    as much to the sum of the counts as it adds lines. *)
Lemma for_keys_balance (keys : list key) (line : string) (st st' : wstate) :
  for_keys keys line st = Return st' ->
  dict_total (local_counts st') + length (filtered_lines st) =
  dict_total (local_counts st) + length (filtered_lines st').
Proof.
  induction keys as [| k keys IH]; simpl.
  - intros [= <-]. lia.
  - destruct (key_in k line) as [[|] | ex]; simpl; [| exact IH | discriminate].
    unfold dict_getitem.
    destruct (dict_lookup (local_counts st) k) as [c |] eqn:Hl; simpl;
      [| discriminate].
    intros [= <-]. simpl. rewrite length_app. simpl.
    pose proof (dict_total_set (local_counts st) k (c + 1)) as H.
    unfold dict_get in H. rewrite Hl in H. lia.
Qed.

Lemma for_lines_balance (keys : list key) (lines : list string) (st st' : wstate) :
  for_lines keys lines st = Return st' ->
  dict_total (local_counts st') + length (filtered_lines st) =
  dict_total (local_counts st) + length (filtered_lines st').
Proof.
  revert st. induction lines as [| l lines IH]; intros st; simpl.
  - intros [= <-]. lia.
  - destruct (for_keys keys l st) as [st1 | ex] eqn:Hk; simpl; [| discriminate].
    intros H. apply IH in H. apply for_keys_balance in Hk. lia.
Qed.

Lemma worker_function_ok (args : list string * list key) :
  result_ok (worker_function args).
Proof.
  unfold worker_function, worker_body, result_ok.
  destruct (for_lines (snd args) (fst args) _) as [st | ex] eqn:H; simpl.
  - apply for_lines_balance in H. simpl in H.
    rewrite zero_counts_total in H. lia.
  - reflexivity.
Qed.

(** ** The collecting loop *)

Lemma writelines_app (l1 l2 : list string) (out : string) :
  writelines out (l1 ++ l2) = writelines (writelines out l1) l2.
Proof. unfold writelines. apply fold_left_app. Qed.

Lemma collect_app (r1 r2 : list (list string * worker_counts)) (st : agg) :
  collect st (r1 ++ r2) = collect (collect st r1) r2.
Proof. unfold collect. apply fold_left_app. Qed.

Lemma collect_step_ok (st : agg) (r : list string * worker_counts) :
  result_ok r -> agg_ok st -> agg_ok (collect_step st r).
Proof.
  unfold result_ok, agg_ok, collect_step.
  destruct r as [filtered [d | msg]]; simpl; intros Hr [Ht Hn].
  - split; [| now apply merge_counts_NoDup].
    rewrite merge_counts_total. unfold dict_total, dict_values in Hr. lia.
  - subst. simpl. split; [lia | exact Hn].
Qed.

Lemma collect_ok (rs : list (list string * worker_counts)) (st : agg) :
  Forall result_ok rs -> agg_ok st -> agg_ok (collect st rs).
Proof.
  unfold collect. revert st.
  induction rs as [| r rs IH]; intros st Hrs Hst; simpl; [exact Hst |].
  inversion Hrs; subst. apply IH; [assumption |].
  now apply collect_step_ok.
Qed.

Lemma pool_results_ok (chunks : list (list string)) (keys : list key) :
  Forall result_ok (pool_results chunks keys).
Proof.
  unfold pool_results. apply List.Forall_map, List.Forall_forall.
  intros chunk _. apply worker_function_ok.
Qed.

Lemma filter_lines_ok (cpu : positive) (lines : list string) (keys : list key) :
  agg_ok (filter_lines cpu lines keys).
Proof.
  unfold filter_lines. apply collect_ok; [apply pool_results_ok |].
  split; simpl; [reflexivity | constructor].
Qed.

(** ** The partition plan *)

Section Partition.
Variable lines : list string.
Variable cs : nat.
Hypothesis cs_pos : 1 <= cs.

Lemma slice_stride (i : nat) :
  slice lines i (i + cs) = firstn cs (skipn i lines).
Proof. unfold slice. f_equal. lia. Qed.

Lemma range_from_nth (fuel start k : nat) :
  k < length (range_from fuel start (length lines) cs) ->
  nth k (range_from fuel start (length lines) cs) 0 = start + k * cs.
Proof.
  revert start k. induction fuel as [| fuel IH]; intros start k; simpl.
  - lia.
  - destruct (start <? length lines); simpl; [| lia].
    destruct k as [| k]; [lia |].
    intros H. rewrite IH by lia. lia.
Qed.

Lemma range_from_below (fuel start : nat) :
  Forall (fun i => i < length lines) (range_from fuel start (length lines) cs).
Proof.
  revert start. induction fuel as [| fuel IH]; intros start; simpl.
  - constructor.
  - destruct (Nat.ltb_spec start (length lines)); constructor; auto.
Qed.

(** With enough fuel the chunks from [start] on make up the lines from
    [start] on. *)
Lemma range_from_concat (fuel start : nat) :
  length lines - start <= fuel ->
  concat (map (fun i => slice lines i (i + cs))
              (range_from fuel start (length lines) cs))
  = skipn start lines.
Proof.
  revert start. induction fuel as [| fuel IH]; intros start Hf; simpl.
  - symmetry. apply skipn_all2. lia.
  - destruct (Nat.ltb_spec start (length lines)) as [Hlt | Hge]; simpl.
    + rewrite IH by lia. rewrite slice_stride.
      replace (start + cs) with (cs + start) by lia.
      rewrite <- skipn_skipn. apply firstn_skipn.
    + symmetry. apply skipn_all2. lia.
Qed.

Lemma chunk_length (i : nat) :
  length (slice lines i (i + cs)) = Nat.min cs (length lines - i).
Proof.
  rewrite slice_stride. rewrite length_firstn, length_skipn. reflexivity.
Qed.

End Partition.

Lemma chunk_size_pos (n w : nat) : 1 <= chunk_size n w.
Proof. unfold chunk_size. lia. Qed.

(** C4. For every sequence of [n] lines and every worker count [w >= 1]
    the chunk size is [max(1, n / w)]; the partitions are the strides
    [lines[k*cs : k*cs + cs]] in the order of [k]; concatenated they give
    back the lines, so they are contiguous, do not overlap and cover
    [[0, n)]; every partition but the last holds exactly [cs] lines and
    the last one holds what remains, between [1] and [cs] lines. *)
Theorem partition_plan_covers (lines : list string) (w : nat) :
  1 <= w ->
  let n := length lines in
  let cs := chunk_size n w in
  let ps := partitions lines w in
  cs = Nat.max 1 (n / w) /\
  concat ps = lines /\
  (forall k, k < length ps -> nth k ps [] = firstn cs (skipn (k * cs) lines)) /\
  Forall (fun p => 1 <= length p <= cs) ps /\
  (forall k, S k < length ps -> length (nth k ps []) = cs).
Proof.
  intros Hw. cbv zeta.
  set (cs := chunk_size (length lines) w).
  pose proof (chunk_size_pos (length lines) w) as Hcs. fold cs in Hcs.
  unfold partitions. fold cs. unfold range.
  set (rg := range_from (length lines) 0 (length lines) cs).
  assert (Hnth : forall k, k < length rg ->
            nth k (map (fun i => slice lines i (i + cs)) rg) []
            = slice lines (k * cs) (k * cs + cs)).
  { intros k Hk.
    rewrite (nth_indep _ [] (slice lines 0 (0 + cs)))
      by (now rewrite length_map).
    rewrite (map_nth (fun i => slice lines i (i + cs))).
    unfold rg in *. now rewrite range_from_nth. }
  split; [reflexivity |]. split; [| split; [| split]].
  - unfold rg. rewrite (range_from_concat lines cs Hcs) by lia. reflexivity.
  - intros k Hk. rewrite length_map in Hk.
    rewrite Hnth by exact Hk. now apply slice_stride.
  - apply List.Forall_map.
    eapply List.Forall_impl; [| apply range_from_below].
    intros i Hi. simpl in *. rewrite chunk_length by exact Hcs. lia.
  - intros k Hk. rewrite length_map in Hk.
    rewrite Hnth by lia. rewrite chunk_length by exact Hcs.
    assert (Hn : nth (S k) rg 0 < length lines).
    { pose proof (range_from_below lines cs (length lines) 0) as Hb.
      rewrite List.Forall_forall in Hb. apply Hb. now apply nth_In. }
    unfold rg in Hn, Hk. rewrite range_from_nth in Hn by lia.
    simpl in Hn. lia.
Qed.

Lemma partition_plan_covers_witness :
  1 <= 3 /\
  partitions ["a"; "b"; "c"; "d"; "e"; "f"; "g"; "h"; "i"; "j"] 3
  = [["a"; "b"; "c"]; ["d"; "e"; "f"]; ["g"; "h"; "i"]; ["j"]] /\
  concat (partitions ["a"; "b"; "c"; "d"; "e"; "f"; "g"; "h"; "i"; "j"] 3)
  = ["a"; "b"; "c"; "d"; "e"; "f"; "g"; "h"; "i"; "j"].
Proof.
  split; [lia |]. split; [reflexivity |].
  apply (partition_plan_covers
           ["a"; "b"; "c"; "d"; "e"; "f"; "g"; "h"; "i"; "j"] 3).
  lia.
Defined.

(** ** First match wins *)

(** C3. A worker that scans [lines] against the string keys [ss], taken in
    their iteration order, returns the lines that contain at least one key,
    each once and in their order, and credits each of them to the first key
    it contains and to no other: the count of a key is the number of lines
    whose first key it is. Lines that contain no key appear neither in the
    output nor in a count. *)
Theorem worker_first_match_wins (ss : list string) (lines : list string) :
  NoDup ss ->
  worker_function (lines, map KStr ss) =
  (map add_newline (matching ss lines),
   Counts (tabulate ss (credited ss lines))).
Proof.
  intros Hnd. unfold worker_function, worker_body. simpl.
  rewrite zero_counts_tabulate by exact Hnd.
  rewrite for_lines_strings by exact Hnd. simpl. reflexivity.
Qed.

Lemma NoDup_two_keys : NoDup ["ERROR"; "WARN"].
Proof. apply NoDup_ListNoDup. repeat constructor; simpl; intuition discriminate. Qed.

Lemma worker_first_match_wins_witness :
  NoDup ["ERROR"; "WARN"] /\
  worker_function
    (["ERROR a"; "INFO b"; "WARN then ERROR c"; "WARN d"], map KStr ["ERROR"; "WARN"])
  = (map add_newline ["ERROR a"; "WARN then ERROR c"; "WARN d"],
     Counts [(KStr "ERROR", 2); (KStr "WARN", 1)]).
Proof.
  split; [exact NoDup_two_keys |].
  apply (worker_first_match_wins ["ERROR"; "WARN"]
           ["ERROR a"; "INFO b"; "WARN then ERROR c"; "WARN d"]).
  exact NoDup_two_keys.
Defined.

(** ** A worker that faults *)

(** A worker returns its lines and counts, or nothing and a string. *)
Lemma worker_function_cases (args : list string * list key) :
  (exists st, worker_function args = (filtered_lines st, Counts (local_counts st)))
  \/ (exists ex, worker_function args = ([], ErrorStr ("Error: " +:+ exn_str ex))).
Proof.
  unfold worker_function, worker_body.
  destruct (for_lines _ _ _) as [st | ex]; simpl; eauto.
Qed.

(** C10. When the body of the worker raises, the worker still returns a
    pair: no lines, and an error string in the place of the counts. The
    round of the collecting loop that receives this pair writes nothing to
    the output file and leaves [matched_lines] and [filter_counts] as they
    were; it only reports the failed call of [items] on the string. *)
Theorem failed_partition_changes_nothing
    (args : list string * list key) (ex : exn) (st : agg) :
  worker_body (fst args) (snd args) = Raise ex ->
  worker_function args = ([], ErrorStr ("Error: " +:+ exn_str ex)) /\
  outfile (collect_step st (worker_function args)) = outfile st /\
  matched_lines (collect_step st (worker_function args)) = matched_lines st /\
  filter_counts (collect_step st (worker_function args)) = filter_counts st /\
  stderr (collect_step st (worker_function args)) =
    stderr st ++ ["Worker error: 'str' object has no attribute 'items'" +:+ NL].
Proof.
  intros H. unfold worker_function. rewrite H.
  unfold collect_step. simpl. repeat split. lia.
Qed.

Lemma failed_partition_changes_nothing_witness :
  worker_body ["ERROR a"; "INFO b"] [KStr "ERROR"; KInt 7]
  = Raise (TypeError "'in <string>' requires string as left operand, not int") /\
  collect_step (mk_agg "x" 1 [(KStr "ERROR", 1)] [])
               (worker_function (["ERROR a"; "INFO b"], [KStr "ERROR"; KInt 7]))
  = mk_agg "x" 1 [(KStr "ERROR", 1)]
           ["Worker error: 'str' object has no attribute 'items'" +:+ NL].
Proof.
  split; [reflexivity |].
  pose proof (failed_partition_changes_nothing
                (["ERROR a"; "INFO b"], [KStr "ERROR"; KInt 7])
                (TypeError "'in <string>' requires string as left operand, not int")
                (mk_agg "x" 1 [(KStr "ERROR", 1)] [])
                eq_refl) as (_ & Ho & Hm & Hc & He).
  destruct (collect_step _ _) as [o m c e]. simpl in *. now subst.
Defined.

(** ** What the collecting loop computes *)

Lemma result_ok_failed_is_empty (r : list string * worker_counts) :
  result_ok r -> failed_is_empty r.
Proof.
  unfold result_ok, failed_is_empty, is_failed.
  destruct (snd r); [discriminate | auto].
Qed.

Lemma agg_eq (a b : agg) :
  outfile a = outfile b -> matched_lines a = matched_lines b ->
  filter_counts a = filter_counts b -> stderr a = stderr b -> a = b.
Proof. destruct a, b; simpl; intros; now subst. Qed.

(** The loop over all results does what the loop over the completed ones
    does, and writes one line to the standard error per failed one. *)
Lemma collect_completed (rs : list (list string * worker_counts)) (st : agg) :
  Forall failed_is_empty rs ->
  collect st rs =
  let st' := collect st (completed rs) in
  mk_agg (outfile st') (matched_lines st') (filter_counts st')
         (stderr st' ++ repeat worker_error_line (failed_partitions rs)).
Proof.
  assert (Hstep : forall rs' st0 tail,
            Forall (fun r => is_failed r = false) rs' ->
            collect (mk_agg (outfile st0) (matched_lines st0) (filter_counts st0)
                            (stderr st0 ++ tail)) rs'
            = let st' := collect st0 rs' in
              mk_agg (outfile st') (matched_lines st') (filter_counts st')
                     (stderr st' ++ tail)).
  { induction rs' as [| r rs' IH]; intros st0 tail Hrs; simpl; [reflexivity |].
    inversion Hrs as [| ? ? Hr Hrs']; subst.
    unfold is_failed in Hr. destruct r as [fl [d | msg]]; [| discriminate].
    exact (IH (collect_step st0 (fl, Counts d)) tail Hrs'). }
  revert st. induction rs as [| r rs IH]; intros st Hrs.
  - destruct st. simpl. now rewrite app_nil_r.
  - inversion Hrs as [| ? ? Hr Hrs']; subst.
    unfold completed, failed_partitions. simpl.
    destruct (is_failed r) eqn:Hf; simpl.
    + fold (completed rs) (failed_partitions rs).
      specialize (Hr Hf). unfold is_failed in Hf.
      destruct r as [fl [d | msg]]; [discriminate |]. simpl in Hr. subst fl.
      assert (Hst1 : collect_step st ([], ErrorStr msg) =
                mk_agg (outfile st) (matched_lines st) (filter_counts st)
                       (stderr st ++ [worker_error_line])).
      { unfold collect_step. simpl. now rewrite Nat.add_0_r. }
      change (collect st (([], ErrorStr msg) :: rs))
        with (collect (collect_step st ([], ErrorStr msg)) rs).
      rewrite (IH _ Hrs'). rewrite Hst1.
      rewrite (Hstep (completed rs) st [worker_error_line]).
      * simpl. rewrite <- app_assoc. reflexivity.
      * unfold completed. apply List.Forall_forall. intros x Hx.
        apply filter_In in Hx as [_ Hx]. now destruct (is_failed x).
    + fold (completed rs) (failed_partitions rs). apply (IH _ Hrs').
Qed.

Lemma collect_outfile (rs : list (list string * worker_counts)) (st : agg) :
  outfile (collect st rs) = writelines (outfile st) (concat (map fst rs)) /\
  matched_lines (collect st rs) = matched_lines st + length (concat (map fst rs)).
Proof.
  revert st. induction rs as [| r rs IH]; intros st.
  - simpl. split; [reflexivity | lia].
  - change (collect st (r :: rs)) with (collect (collect_step st r) rs).
    destruct (IH (collect_step st r)) as [Ho Hm]. rewrite Ho, Hm.
    simpl. rewrite writelines_app, length_app.
    unfold collect_step. destruct (items (snd r)); simpl; split; auto; lia.
Qed.

Lemma partitions_concat (lines : list string) (w : nat) :
  concat (partitions lines w) = lines.
Proof.
  unfold partitions, range.
  rewrite (range_from_concat lines _ (chunk_size_pos (length lines) w)) by lia.
  reflexivity.
Qed.

(** ** The order of the output *)

Lemma for_keys_sublist (keys : list key) (line : string) (st st' : wstate) :
  for_keys keys line st = Return st' ->
  exists m, filtered_lines st' = filtered_lines st ++ m /\
            sublist m [add_newline line].
Proof.
  induction keys as [| k keys IH]; simpl.
  - intros [= <-]. exists []. rewrite app_nil_r. split; [reflexivity |].
    apply sublist_nil_l.
  - destruct (key_in k line) as [[|] | ex]; simpl; [| exact IH | discriminate].
    destruct (dict_getitem (local_counts st) k) as [c | ex]; simpl;
      [| discriminate].
    intros [= <-]. simpl. exists [add_newline line]. split; reflexivity.
Qed.

Lemma for_lines_sublist (keys : list key) (lines : list string) (st st' : wstate) :
  for_lines keys lines st = Return st' ->
  exists m, filtered_lines st' = filtered_lines st ++ m /\
            sublist m (map add_newline lines).
Proof.
  revert st. induction lines as [| l lines IH]; intros st; simpl.
  - intros [= <-]. exists []. rewrite app_nil_r. split; [reflexivity | constructor].
  - destruct (for_keys keys l st) as [st1 | ex] eqn:Hk; simpl; [| discriminate].
    intros H. apply IH in H as (m2 & E2 & S2).
    apply for_keys_sublist in Hk as (m1 & E1 & S1).
    exists (m1 ++ m2). rewrite E2, E1, <- app_assoc. split; [reflexivity |].
    change (add_newline l :: map add_newline lines)
      with ([add_newline l] ++ map add_newline lines).
    now apply sublist_app.
Qed.

(** What a worker returns is a subsequence of its chunk, each line with the
    newline the worker appends. *)
Lemma worker_function_sublist (chunk : list string) (keys : list key) :
  sublist (fst (worker_function (chunk, keys))) (map add_newline chunk).
Proof.
  unfold worker_function, worker_body. simpl.
  destruct (for_lines keys chunk _) as [st | ex] eqn:H; simpl.
  - apply for_lines_sublist in H as (m & E & S). simpl in E. now subst.
  - apply sublist_nil_l.
Qed.

Lemma pool_results_sublist (chunks : list (list string)) (keys : list key) :
  sublist (concat (map fst (pool_results chunks keys)))
          (map add_newline (concat chunks)).
Proof.
  induction chunks as [| c chunks IH]; simpl; [constructor |].
  rewrite map_app. apply sublist_app; [apply worker_function_sublist | exact IH].
Qed.

(** ** The result payload *)

Lemma insert_desc_perm (x : key * nat) (l : list (key * nat)) :
  Permutation (insert_desc x l) (x :: l).
Proof.
  induction l as [| y l IH]; simpl; [reflexivity |].
  destruct (snd y <=? snd x); [reflexivity |].
  rewrite IH. apply perm_swap.
Qed.

Lemma sorted_desc_perm (l : list (key * nat)) : Permutation (sorted_desc l) l.
Proof.
  induction l as [| x l IH]; simpl; [reflexivity |].
  rewrite insert_desc_perm. now apply perm_skip.
Qed.

Lemma insert_desc_sorted (x : key * nat) (l : list (key * nat)) :
  StronglySorted desc l -> StronglySorted desc (insert_desc x l).
Proof.
  induction l as [| y l IH]; simpl; intros H.
  - repeat constructor.
  - apply StronglySorted_inv in H as [Hl Hy].
    destruct (Nat.leb_spec (snd y) (snd x)) as [Hle | Hgt].
    + constructor; [constructor; assumption |].
      constructor; [exact Hle |].
      eapply List.Forall_impl; [| exact Hy]. unfold desc. simpl. lia.
    + constructor; [now apply IH |].
      eapply Permutation_Forall; [symmetry; apply insert_desc_perm |].
      constructor; [unfold desc; lia | exact Hy].
Qed.

Lemma sorted_desc_sorted (l : list (key * nat)) : StronglySorted desc (sorted_desc l).
Proof.
  induction l as [| x l IH]; simpl; [constructor | now apply insert_desc_sorted].
Qed.

Lemma filter_sorted (f : key * nat -> bool) (l : list (key * nat)) :
  StronglySorted desc l -> StronglySorted desc (List.filter f l).
Proof.
  induction l as [| x l IH]; simpl; intros H; [constructor |].
  apply StronglySorted_inv in H as [Hl Hx].
  destruct (f x); [| now apply IH].
  constructor; [now apply IH |].
  apply List.Forall_forall. intros y Hy. apply filter_In in Hy as [Hy _].
  rewrite List.Forall_forall in Hx. now apply Hx.
Qed.

Lemma filter_keys_NoDup (f : key * nat -> bool) (l : list (key * nat)) :
  List.NoDup (map fst l) -> List.NoDup (map fst (List.filter f l)).
Proof.
  induction l as [| x l IH]; simpl; intros H; [constructor |].
  inversion H as [| ? ? Hx Hl]; subst.
  destruct (f x); simpl; [| now apply IH].
  constructor; [| now apply IH].
  intros Hin. apply Hx. apply in_map_iff in Hin as (y & E & Hy).
  apply filter_In in Hy as [Hy _]. apply in_map_iff. now exists y.
Qed.

Lemma dict_set_fresh (d : dict) (k : key) (v : nat) :
  ~ In k (dict_keys d) -> dict_set d k v = d ++ [(k, v)].
Proof.
  induction d as [| [k' v'] d IH]; simpl; intros H; [reflexivity |].
  rewrite key_eqb_neq by tauto. f_equal. apply IH. tauto.
Qed.

(** Updating a dictionary that starts with the key [t] by items of distinct
    keys: the value of [t] is replaced when [t] is among them, and the
    other items are appended in their order. *)
Lemma dict_update_head (t : key) (its : list (key * nat)) :
  forall (acc : dict) (v : nat),
  List.NoDup (map fst its) ->
  ~ In t (dict_keys acc) ->
  (forall k, In k (dict_keys acc) -> ~ In k (map fst its)) ->
  dict_update ((t, v) :: acc) its =
  (t, dict_get its t v) :: acc
    ++ List.filter (fun kc => negb (key_eqb (fst kc) t)) its.
Proof.
  unfold dict_update, dict_get.
  induction its as [| [k c] its IH]; intros acc v Hnd Ht Hdis; simpl.
  - now rewrite app_nil_r.
  - inversion Hnd as [| ? ? Hk Hnd']; subst.
    key_cases t k.
    + subst k. rewrite key_eqb_refl. simpl.
      rewrite IH; auto.
      * f_equal.
        destruct (dict_lookup its t) eqn:Hl; [| reflexivity].
        apply dict_lookup_In in Hl. exfalso. apply Hk.
        apply in_map_iff. now exists (t, n).
      * intros k Hka. specialize (Hdis k Hka). simpl in Hdis. tauto.
    + rewrite (key_eqb_neq k t) by congruence. simpl.
      rewrite dict_set_fresh.
      * rewrite IH; auto.
        -- now rewrite <- app_assoc.
        -- unfold dict_keys. rewrite map_app, in_app_iff. simpl.
           intros [H | [H | []]]; [tauto | congruence].
        -- unfold dict_keys. intros k0. rewrite map_app, in_app_iff. simpl.
           intros [H | [<- | []]]; [| exact Hk].
           specialize (Hdis k0 H). simpl in Hdis. tauto.
      * intros H. apply (Hdis k H). now left.
Qed.

Lemma dict_update_nil (its : list (key * nat)) :
  List.NoDup (map fst its) -> dict_update [] its = its.
Proof.
  destruct its as [| [k c] its]; [reflexivity |]. intros Hnd.
  inversion Hnd as [| ? ? Hk Hnd']; subst.
  change (dict_update [] ((k, c) :: its)) with (dict_update [(k, c)] its).
  rewrite (dict_update_head k its [] c Hnd'); simpl; auto.
  assert (Hl : dict_lookup its k = None) by now apply dict_lookup_None.
  unfold dict_get. rewrite Hl. f_equal.
  clear - Hk. induction its as [| [k' c'] its IH]; simpl; [reflexivity |].
  simpl in Hk. rewrite key_eqb_neq by tauto. simpl. f_equal. apply IH. tauto.
Qed.

(** The shape of ["hits"]: the key ["total"] first, then the other keys of
    positive count in descending order of count. The value of ["total"] is
    the number of matched lines unless ["total"] is itself a key of
    positive count. *)
Lemma build_hits_shape (matched : nat) (counts : dict) :
  NoDup (dict_keys counts) ->
  build_hits matched counts =
  (total_key, dict_get (positive_sorted counts) total_key matched)
    :: List.filter (fun kc => negb (key_eqb (fst kc) total_key))
                   (positive_sorted counts).
Proof.
  intros Hnd. apply NoDup_ListNoDup in Hnd.
  unfold build_hits. fold (positive_sorted counts).
  assert (Hp : List.NoDup (map fst (positive_sorted counts))).
  { unfold positive_sorted. apply filter_keys_NoDup.
    eapply Permutation_NoDup; [| exact Hnd].
    apply Permutation_map. symmetry. apply sorted_desc_perm. }
  rewrite (dict_update_nil _ Hp).
  apply (dict_update_head total_key _ [] matched Hp); simpl; auto.
Qed.

(** ** Only filter keys are counted *)

Lemma fold_set_keys (ks : list key) (d : dict) (k : key) :
  In k (dict_keys (fold_left (fun d k => dict_set d k 0) ks d)) ->
  In k (dict_keys d) \/ In k ks.
Proof.
  revert d. induction ks as [| a ks IH]; intros d; simpl; [tauto |].
  intros H. apply IH in H as [H | H]; [| tauto].
  rewrite dict_keys_set in H.
  destruct (dict_lookup d a); [tauto |].
  apply in_app_iff in H as [H | [<- | []]]; tauto.
Qed.

Lemma for_keys_keys (keys : list key) (line : string) (st st' : wstate) :
  for_keys keys line st = Return st' ->
  dict_keys (local_counts st') = dict_keys (local_counts st).
Proof.
  induction keys as [| k keys IH]; simpl.
  - now intros [= <-].
  - destruct (key_in k line) as [[|] | ex]; simpl; [| exact IH | discriminate].
    unfold dict_getitem.
    destruct (dict_lookup (local_counts st) k) as [c |] eqn:Hl; simpl;
      [| discriminate].
    intros [= <-]. simpl. rewrite dict_keys_set. now rewrite Hl.
Qed.

Lemma for_lines_keys (keys : list key) (lines : list string) (st st' : wstate) :
  for_lines keys lines st = Return st' ->
  dict_keys (local_counts st') = dict_keys (local_counts st).
Proof.
  revert st. induction lines as [| l lines IH]; intros st; simpl.
  - now intros [= <-].
  - destruct (for_keys keys l st) as [st1 | ex] eqn:Hk; simpl; [| discriminate].
    intros H. rewrite (IH _ H). now apply for_keys_keys in Hk.
Qed.

Lemma worker_function_keys (chunk : list string) (keys : list key) (d : dict) (k : key) :
  snd (worker_function (chunk, keys)) = Counts d ->
  In k (dict_keys d) -> In k keys.
Proof.
  unfold worker_function, worker_body. simpl.
  destruct (for_lines keys chunk _) as [st | ex] eqn:H; simpl; [| discriminate].
  intros [= <-] Hk. apply for_lines_keys in H. simpl in H. rewrite H in Hk.
  apply fold_set_keys in Hk as [[] | Hk]. exact Hk.
Qed.

Lemma merge_counts_keys (its : list (key * nat)) (fc : dict) (k : key) :
  In k (dict_keys (merge_counts fc its)) ->
  In k (dict_keys fc) \/ In k (map fst its).
Proof.
  unfold merge_counts. revert fc.
  induction its as [| [a c] its IH]; intros fc; simpl; [tauto |].
  intros H. apply IH in H as [H | H]; [| tauto].
  rewrite dict_keys_set in H.
  destruct (dict_lookup fc a); [tauto |].
  apply in_app_iff in H as [H | [<- | []]]; tauto.
Qed.

Lemma collect_keys (rs : list (list string * worker_counts)) (st : agg) (k : key) :
  In k (dict_keys (filter_counts (collect st rs))) ->
  In k (dict_keys (filter_counts st)) \/
  exists r d, In r rs /\ snd r = Counts d /\ In k (dict_keys d).
Proof.
  revert st. induction rs as [| r rs IH]; intros st; [simpl; tauto |].
  change (collect st (r :: rs)) with (collect (collect_step st r) rs).
  intros H. apply IH in H as [H | (r' & d & Hr & Hd & Hk)].
  - unfold collect_step in H. destruct r as [fl [d | msg]]; simpl in H.
    + apply merge_counts_keys in H as [H | H]; [tauto |].
      right. exists (fl, Counts d), d. simpl. tauto.
    + tauto.
  - right. exists r', d. simpl. tauto.
Qed.

Lemma filter_lines_keys (cpu : positive) (lines : list string) (keys : list key)
    (k : key) :
  In k (dict_keys (filter_counts (filter_lines cpu lines keys))) -> In k keys.
Proof.
  unfold filter_lines. intros H.
  apply collect_keys in H as [[] | (r & d & Hr & Hd & Hk)].
  unfold pool_results in Hr. apply in_map_iff in Hr as (chunk & <- & _).
  eapply worker_function_keys; eassumption.
Qed.

(** ** A call of [filter] that returns a payload *)

Lemma parallel_filter_inv (e : env) (s : fs) (log out : string)
    (keys : list key) (r : pf_out) :
  _parallel_filter e s log out keys = Return r ->
  let st := filter_lines (cpu_count e) (lines_read e s log out) keys in
  is_Some (files s !! log) /\ (out ∉ dirs s) /\
  r = mk_pf_out
        (write_file (write_file s out "" (now e)) out (outfile st) (now_end e))
        (stderr st)
        (length (partitions (lines_read e s log out)
                            (num_workers (cpu_count e) keys)))
        (matched_lines st) (filter_counts st).
Proof.
  unfold _parallel_filter, open_read, open_write, lines_read.
  destruct (files s !! log) as [f |] eqn:Hf; simpl; [| discriminate].
  case_bool_decide as Hd; simpl; [discriminate |].
  intros [= <-]. repeat split; eauto.
Qed.

Lemma filter_payload_inv (e : env) (s : fs) (lp fp : string) (ow : bool)
    (p : payload) :
  o_result (filter e s lp fp ow) = Return (RPayload p) ->
  exists r,
    run_keys e s fp <> [] /\
    _parallel_filter e (makedirs s (log_folder e lp)) lp (output_file e lp)
                     (run_keys e s fp) = Return r /\
    filter e s lp fp ow =
      mk_outcome (write_file (pf_fs r) (metadata_file e lp) (json_dump e p)
                             (now_end e))
                 (pf_stderr r) (pf_submitted r) (Return (RPayload p)) /\
    p = mk_payload (build_hits (pf_matched_lines r) (pf_filter_counts r))
                   (path_name fp) (strftime_meta e (now_end e))
                   (get_info e (pf_fs r) lp).
Proof.
  unfold filter, run_keys.
  destruct (negb (path_exists s lp)); [discriminate |].
  destruct (negb (path_exists s fp)); [discriminate |].
  destruct (open_read s fp); [| discriminate].
  destruct (json_load e (read_content s fp)) as [[filters | ex] | msg];
    [| discriminate | discriminate].
  destruct (py_set e filters) as [keys | ex]; [| discriminate].
  destruct (Nat.eqb_spec (length keys) 0) as [Hz | Hnz]; [discriminate |].
  destruct (path_exists s (log_folder e lp) && negb ow); [discriminate |].
  destruct (_parallel_filter _ _ _ _ _) as [r | ex]; [| discriminate].
  destruct (open_write (pf_fs r) _ _); [| discriminate].
  simpl. intros [= <-]. exists r. repeat split.
  intros ->. now apply Hnz.
Qed.

Lemma filter_payload_hits (e : env) (s : fs) (lp fp : string) (ow : bool)
    (p : payload) :
  o_result (filter e s lp fp ow) = Return (RPayload p) ->
  let st := run_state e s lp fp in
  hits p = build_hits (matched_lines st) (filter_counts st) /\
  o_stderr (filter e s lp fp ow) = stderr st /\
  o_submitted (filter e s lp fp ow) = length (run_results e s lp fp).
Proof.
  intros H. apply filter_payload_inv in H as (r & _ & Hpf & Hf & Hp).
  apply parallel_filter_inv in Hpf as (_ & _ & Hr).
  rewrite Hf. subst p r. simpl. repeat split.
  unfold run_results, pool_results. now rewrite length_map.
Qed.

Lemma dict_In_lookup (d : dict) (k : key) (c : nat) :
  NoDup (dict_keys d) -> In (k, c) d -> dict_lookup d k = Some c.
Proof.
  intros Hnd. apply NoDup_ListNoDup in Hnd. revert Hnd.
  induction d as [| [k' c'] d IH]; simpl; [tauto |].
  intros Hnd. inversion Hnd as [| ? ? Hk Hnd']; subst.
  intros [[= -> ->] | Hin].
  - now rewrite key_eqb_refl.
  - rewrite key_eqb_neq; [now apply IH |].
    intros ->. apply Hk. apply in_map_iff. now exists (k, c).
Qed.

Lemma positive_sorted_In (counts : dict) (kc : key * nat) :
  In kc (positive_sorted counts) <-> In kc counts /\ 0 < snd kc.
Proof.
  unfold positive_sorted. rewrite filter_In, Nat.ltb_lt.
  split; intros [H1 H2]; (split; [| exact H2]).
  - eapply Permutation_in; [apply sorted_desc_perm | exact H1].
  - eapply Permutation_in; [symmetry; apply sorted_desc_perm | exact H1].
Qed.


(** ** The scenario of the spec *)

Example scenario_levels :
  o_result (filter (Scenario.host Scenario.same_order 100)
                   (Scenario.disk Scenario.levels_lines Scenario.levels_text)
                   Scenario.log_path Scenario.filter_path false)
  = Return (RPayload Scenario.levels_payload).
Proof. vm_compute. reflexivity. Qed.


(** ** The sum of the counts *)

Lemma list_sum_perm (l l' : list nat) :
  Permutation l l' -> list_sum l = list_sum l'.
Proof. induction 1; simpl; lia. Qed.

Lemma positive_sorted_total (counts : dict) :
  list_sum (map snd (positive_sorted counts)) = dict_total counts.
Proof.
  unfold positive_sorted, dict_total, dict_values.
  rewrite <- (list_sum_perm _ _ (Permutation_map snd (sorted_desc_perm counts))).
  induction (sorted_desc counts) as [| [k c] l IH]; simpl; [reflexivity |].
  destruct c; simpl; lia.
Qed.

Lemma filter_all (f : key * nat -> bool) (l : list (key * nat)) :
  (forall x, In x l -> f x = true) -> List.filter f l = l.
Proof.
  induction l as [| x l IH]; simpl; intros H; [reflexivity |].
  rewrite (H x) by now left. f_equal. apply IH. intros y Hy. apply H. now right.
Qed.

(** X25. What [_parallel_filter] returns satisfies the invariant: the aggregate
    counts add up to the number of matched lines. *)
Lemma parallel_filter_counts_sum (e : env) (s : fs) (log out : string)
    (keys : list key) (r : pf_out) :
  _parallel_filter e s log out keys = Return r ->
  dict_total (pf_filter_counts r) = pf_matched_lines r.
Proof.
  intros H. apply parallel_filter_inv in H as (_ & _ & ->). simpl.
  apply filter_lines_ok.
Qed.

(** X24. In the payload the invariant survives as long as ["total"] is not a
    filter key with matches of its own. *)
Lemma hits_sum_without_total_key (e : env) (s : fs) (lp fp : string) (ow : bool)
    (p : payload) :
  o_result (filter e s lp fp ow) = Return (RPayload p) ->
  dict_get (filter_counts (run_state e s lp fp)) total_key 0 = 0 ->
  hits_total (hits p) = matched_lines (run_state e s lp fp) /\
  hits_key_sum (hits p) = hits_total (hits p).
Proof.
  intros H Hz. apply filter_payload_hits in H as (Hh & _).
  destruct (filter_lines_ok (cpu_count e) (run_lines e s lp)
              (run_keys e s fp)) as [Hsum Hnd].
  fold (run_state e s lp fp) in Hsum, Hnd.
  set (st := run_state e s lp fp) in *.
  rewrite (build_hits_shape _ _ Hnd) in Hh.
  assert (Hno : forall kc, In kc (positive_sorted (filter_counts st)) ->
                           negb (key_eqb (fst kc) total_key) = true).
  { intros [k c] Hin. simpl. apply positive_sorted_In in Hin as [Hin Hc].
    simpl in Hc. apply (dict_In_lookup _ _ _ Hnd) in Hin.
    key_cases k total_key; [| reflexivity]. subst k.
    unfold dict_get in Hz. rewrite Hin in Hz. lia. }
  rewrite (filter_all _ _ Hno) in Hh.
  assert (Hl : dict_lookup (positive_sorted (filter_counts st)) total_key = None).
  { apply dict_lookup_None. intros Hin.
    apply in_map_iff in Hin as ([k c] & Hk & Hin). simpl in Hk. subst k.
    specialize (Hno _ Hin). cbn [fst] in Hno.
    rewrite (key_eqb_refl total_key) in Hno. discriminate. }
  unfold dict_get in Hh at 1. rewrite Hl in Hh. rewrite Hh.
  unfold hits_total, hits_key_sum, dict_get. simpl.
  rewrite (filter_all _ _ Hno), positive_sorted_total. auto.
Qed.

(** C1, at the input that breaks it. The filter has the keys ["total"] and
    ["err"]; two lines match ["err"] and one matches ["total"]. Three lines
    are matched and written, yet ["hits"] reports a total of 1, the count
    of the key ["total"], next to a count of 2 for ["err"]: the sum of the
    other keys is not the total, and the total is not the number of matched
    lines. *)
Theorem hits_total_clobbered_by_total_key :
  let e := Scenario.host Scenario.same_order 100 in
  let s := Scenario.disk ["err 1"; "err 2"; "total 3"] Scenario.total_text in
  exists p,
    o_result (filter e s Scenario.log_path Scenario.filter_path false)
      = Return (RPayload p) /\
    hits p = [(total_key, 1); (KStr "err", 2)] /\
    hits_key_sum (hits p) = 2 /\
    hits_total (hits p) = 1 /\
    matched_lines (run_state e s Scenario.log_path Scenario.filter_path) = 3.
Proof.
  eexists. split; [vm_compute; reflexivity |].
  vm_compute. repeat split.
Qed.

(** C2, at the input that breaks it. The log is the single line
    [ERROR a] with its line feed; the filter key is ["ERROR"]. One line is
    matched, and the filtered log holds that line followed by two line
    feeds, which makes two lines. *)
Theorem filtered_log_doubles_line_feed :
  let e := Scenario.host Scenario.same_order 100 in
  let s := Scenario.disk ["ERROR a"] Scenario.levels_text in
  let o := filter e s Scenario.log_path Scenario.filter_path false in
  read_content s Scenario.log_path = "ERROR a" +:+ NL /\
  (exists p, o_result o = Return (RPayload p) /\
             hits p = [(total_key, 1); (KStr "ERROR", 1)]) /\
  output_file e Scenario.log_path = Scenario.out_path /\
  read_content (o_fs o) Scenario.out_path = "ERROR a" +:+ NL +:+ NL /\
  count_lines (read_content (o_fs o) Scenario.out_path) = 2.
Proof.
  cbv zeta. split; [vm_compute; reflexivity |].
  split; [eexists; split; vm_compute; reflexivity |].
  repeat split; vm_compute; reflexivity.
Qed.

(** ** The filtered log *)

Lemma read_content_write_eq (s : fs) (p c : string) (t : nat) :
  read_content (write_file s p c t) p = c.
Proof. unfold read_content, write_file. simpl. now rewrite lookup_insert_eq. Qed.

Lemma read_content_write_ne (s : fs) (p q c : string) (t : nat) :
  p <> q -> read_content (write_file s p c t) q = read_content s q.
Proof.
  intros H. unfold read_content, write_file. simpl.
  now rewrite lookup_insert_ne.
Qed.

Lemma read_content_makedirs (s : fs) (d p : string) :
  read_content (makedirs s d) p = read_content s p.
Proof. reflexivity. Qed.



(** ** Validation *)

Lemma path_exists_file (s : fs) (p : string) :
  is_Some (files s !! p) -> path_exists s p = true.
Proof.
  intros H. unfold path_exists. now rewrite bool_decide_eq_true_2.
Qed.

(** C6. Each validation failure makes [filter] return its value at once:
    the file system is the one the call found, nothing has been written to
    the standard error, and no chunk has been submitted to the pool. For an
    empty filter set in particular no output directory and no file is
    created. *)
Theorem validation_failures_short_circuit (e : env) (s : fs) (lp fp : string)
    (ow : bool) (r : filter_result) :
  validation_failure e s lp fp ow r ->
  filter e s lp fp ow = mk_outcome s [] 0 (Return r).
Proof.
  intros H. unfold filter.
  destruct H as [Hl | Hl Hf | msg Hl Hf Hj | filters Hl Hf Hj Hs
                 | filters keys Hl Hf Hj Hs Hk Hd Ho].
  - now rewrite Hl.
  - now rewrite Hl, Hf.
  - rewrite Hl, (path_exists_file _ _ Hf). simpl.
    unfold open_read. destruct Hf as [f ->]. now rewrite Hj.
  - rewrite Hl, (path_exists_file _ _ Hf). simpl.
    unfold open_read. destruct Hf as [f ->]. now rewrite Hj, Hs.
  - rewrite Hl, (path_exists_file _ _ Hf). simpl.
    unfold open_read. destruct Hf as [f ->]. rewrite Hj, Hs.
    destruct keys as [| k keys]; [congruence |]. simpl.
    now rewrite Hd, Ho.
Qed.

Lemma validation_failures_short_circuit_witness :
  let e := Scenario.host Scenario.same_order 100 in
  let s := Scenario.disk Scenario.levels_lines Scenario.empty_text in
  filter e s Scenario.log_path Scenario.filter_path true =
  mk_outcome s [] 0
    (Return (RWarning "No filter keys found in filter file. Skipping filtering.")).
Proof.
  cbv zeta. apply validation_failures_short_circuit.
  apply (EmptyFilterSet _ _ _ _ _ (JObj [])).
  - vm_compute. reflexivity.
  - eexists. vm_compute. reflexivity.
  - vm_compute. reflexivity.
  - vm_compute. reflexivity.
Defined.

(** ** Partitions that fail *)

Lemma completed_not_failed (rs : list (list string * worker_counts)) :
  Forall (fun r => is_failed r = false) (completed rs).
Proof.
  unfold completed. apply List.Forall_forall. intros x Hx.
  apply filter_In in Hx as [_ Hx]. now destruct (is_failed x).
Qed.

Lemma collect_quiet (l : list (list string * worker_counts)) (st : agg) :
  Forall (fun r => is_failed r = false) l ->
  stderr (collect st l) = stderr st.
Proof.
  revert st. induction l as [| r l IH]; intros st Hl; [reflexivity |].
  inversion Hl as [| ? ? Hr Hl']; subst.
  change (collect st (r :: l)) with (collect (collect_step st r) l).
  rewrite (IH _ Hl').
  unfold collect_step, is_failed in *.
  destruct (snd r); [reflexivity | discriminate].
Qed.




(** ** Two calls in a row *)

(** C8 as stated fails: the second call iterates the filter set in another
    order than the first, the one line of the log contains both keys, and
    the two payloads credit it to different keys. Source and filter file
    are the same for both calls. *)
Lemma hits_depend_on_set_order :
  let e1 := Scenario.host Scenario.same_order 100 in
  let e2 := Scenario.host (@rev key) 200 in
  let s := Scenario.disk ["ERROR x"] Scenario.overlap_text in
  let run1 := filter e1 s Scenario.log_path Scenario.filter_path true in
  let run2 := filter e2 (o_fs run1) Scenario.log_path Scenario.filter_path true in
  read_content (o_fs run1) Scenario.log_path = read_content s Scenario.log_path /\
  read_content (o_fs run1) Scenario.filter_path = read_content s Scenario.filter_path /\
  exists p1 p2,
    o_result run1 = Return (RPayload p1) /\
    o_result run2 = Return (RPayload p2) /\
    hits p1 = [(total_key, 1); (KStr "ERR", 1)] /\
    hits p2 = [(total_key, 1); (KStr "ERROR", 1)] /\
    hits p1 <> hits p2.
Proof.
  cbv zeta. split; [vm_compute; reflexivity |].
  split; [vm_compute; reflexivity |].
  eexists. eexists.
  split; [vm_compute; reflexivity |].
  split; [vm_compute; reflexivity |].
  split; [vm_compute; reflexivity |].
  split; [vm_compute; reflexivity |].
  vm_compute. discriminate.
Qed.

Lemma py_set_same_order (e1 e2 : env) (filters : json) :
  set_order e2 = set_order e1 -> py_set e2 filters = py_set e1 filters.
Proof. intros H. unfold py_set. now rewrite H. Qed.

(** C8, as the code has it. Two calls in a row on the same log and filter
    file, both with [overwrite] set, on a host that loads the filter
    and iterates the filter set in the same way both times: when neither
    call writes to the log or to the filter file and both return a payload,
    the two payloads have the same ["hits"], whatever the clock says. *)
Theorem hits_repeatable (e1 e2 : env) (s : fs) (lp fp : string) (p1 p2 : payload) :
  json_load e2 = json_load e1 ->
  set_order e2 = set_order e1 ->
  cpu_count e2 = cpu_count e1 ->
  ~ In lp [output_file e1 lp; metadata_file e1 lp; output_file e2 lp] ->
  ~ In fp [output_file e1 lp; metadata_file e1 lp] ->
  o_result (filter e1 s lp fp true) = Return (RPayload p1) ->
  o_result (filter e2 (o_fs (filter e1 s lp fp true)) lp fp true)
    = Return (RPayload p2) ->
  hits p2 = hits p1.
Proof.
  intros Hj Ho Hc Hlp Hfp H1 H2.
  simpl in Hlp, Hfp.
  assert (L1 : output_file e1 lp <> lp) by tauto.
  assert (L2 : metadata_file e1 lp <> lp) by tauto.
  assert (L3 : output_file e2 lp <> lp) by tauto.
  assert (F1 : output_file e1 lp <> fp) by tauto.
  assert (F2 : metadata_file e1 lp <> fp) by tauto.
  destruct (filter_payload_hits _ _ _ _ _ _ H1) as (Hh1 & _).
  destruct (filter_payload_hits _ _ _ _ _ _ H2) as (Hh2 & _).
  apply filter_payload_inv in H1 as (r1 & _ & Hpf & Hf & _).
  apply parallel_filter_inv in Hpf as (_ & _ & Hr1).
  rewrite Hf in Hh2. simpl in Hh2. rewrite Hr1 in Hh2. simpl in Hh2.
  rewrite Hh1, Hh2.
  set (s' := write_file _ (metadata_file e1 lp) _ _).
  assert (Hread : forall q, output_file e1 lp <> q -> metadata_file e1 lp <> q ->
                            read_content s' q = read_content s q).
  { intros q Hq1 Hq2. unfold s'.
    rewrite !read_content_write_ne by assumption.
    apply read_content_makedirs. }
  assert (Hst : run_state e2 s' lp fp = run_state e1 s lp fp).
  { unfold run_state. f_equal.
    - exact Hc.
    - unfold run_lines, lines_read.
      rewrite !read_content_write_ne by assumption.
      rewrite !read_content_makedirs. f_equal. now apply Hread.
    - unfold run_keys. rewrite Hj, Hread by assumption.
      destruct (json_load e1 (read_content s fp)) as [[filters | ex] | msg];
        try reflexivity.
      now rewrite (py_set_same_order e1 e2 filters Ho). }
  now rewrite Hst.
Qed.

Lemma hits_repeatable_witness :
  let e1 := Scenario.host Scenario.same_order 100 in
  let e2 := Scenario.host Scenario.same_order 200 in
  let s := Scenario.disk Scenario.levels_lines Scenario.levels_text in
  o_result (filter e1 s Scenario.log_path Scenario.filter_path true)
    = Return (RPayload Scenario.levels_payload) /\
  o_result (filter e2 (o_fs (filter e1 s Scenario.log_path Scenario.filter_path true))
                   Scenario.log_path Scenario.filter_path true)
    = Return (RPayload Scenario.levels_payload_again) /\
  hits Scenario.levels_payload_again = hits Scenario.levels_payload.
Proof.
  cbv zeta.
  split; [vm_compute; reflexivity |].
  split; [vm_compute; reflexivity |].
  apply (hits_repeatable
           (Scenario.host Scenario.same_order 100)
           (Scenario.host Scenario.same_order 200)
           (Scenario.disk Scenario.levels_lines Scenario.levels_text)
           Scenario.log_path Scenario.filter_path).
  - reflexivity.
  - reflexivity.
  - reflexivity.
  - vm_compute. intuition discriminate.
  - vm_compute. intuition discriminate.
  - vm_compute. reflexivity.
  - vm_compute. reflexivity.
Defined.

(** ** The whole pipeline on string keys *)

Lemma matching_app (ss a b : list string) :
  matching ss (a ++ b) = matching ss a ++ matching ss b.
Proof. unfold matching. apply List.filter_app. Qed.

Lemma credited_app (ss a b : list string) (s : string) :
  credited ss (a ++ b) s = credited ss a s + credited ss b s.
Proof. unfold credited. now rewrite List.filter_app, length_app. Qed.

Lemma tabulate_keys_In (ss : list string) (f : string -> nat) (a : string) :
  In (KStr a) (dict_keys (tabulate ss f)) <-> In a ss.
Proof.
  unfold dict_keys, tabulate. rewrite map_map. simpl. rewrite in_map_iff.
  split; [intros (x & [= ->] & H); exact H | intros H; now exists a].
Qed.

Lemma mem_string_In (s : string) (l : list string) :
  existsb (String.eqb s) l = true <-> In s l.
Proof.
  rewrite existsb_exists. split.
  - intros (x & Hx & E). apply String.eqb_eq in E. now subst.
  - intros H. exists s. split; [exact H | apply String.eqb_refl].
Qed.

Lemma tabulate_app (a b : list string) (g : string -> nat) :
  tabulate (a ++ b) g = tabulate a g ++ tabulate b g.
Proof. unfold tabulate. apply List.map_app. Qed.

(** The first result merged into the empty [filter_counts]. *)
Lemma merge_tabulate_fresh (g : string -> nat) (suf pre : list string) :
  NoDup (pre ++ suf) ->
  merge_counts (tabulate pre g) (tabulate suf g) = tabulate (pre ++ suf) g.
Proof.
  unfold merge_counts. revert pre.
  induction suf as [| a suf IH]; intros pre H; simpl.
  - now rewrite app_nil_r.
  - assert (Ha : ~ In a pre).
    { apply NoDup_app in H as (_ & H & _). intros Hin.
      apply list_elem_of_In in Hin. apply (H a Hin). now left. }
    assert (Hk : ~ In (KStr a) (dict_keys (tabulate pre g)))
      by now rewrite tabulate_keys_In.
    unfold dict_get. rewrite (proj2 (dict_lookup_None _ _) Hk). simpl.
    rewrite (dict_set_fresh _ _ _ Hk).
    change (tabulate pre g ++ [(KStr a, g a)])
      with (tabulate pre g ++ tabulate [a] g).
    rewrite <- (tabulate_app pre [a] g).
    rewrite IH; rewrite <- app_assoc; [reflexivity | exact H].
Qed.

(** A later result merged into the counts of the same keys. *)
Lemma merge_tabulate_same (ss : list string) (g : string -> nat) :
  NoDup ss ->
  forall (suf : list string) (h : string -> nat),
  NoDup suf -> (forall s, In s suf -> In s ss) ->
  merge_counts (tabulate ss h) (tabulate suf g) =
  tabulate ss (fun s => h s + if existsb (String.eqb s) suf then g s else 0).
Proof.
  intros Hnd. unfold merge_counts.
  induction suf as [| a suf IH]; intros h Hsuf Hin; simpl.
  - apply tabulate_ext. intros s _. lia.
  - apply NoDup_cons in Hsuf as [Ha Hsuf].
    unfold dict_get. rewrite dict_lookup_tabulate by (apply Hin; now left).
    rewrite dict_set_tabulate by (auto; apply Hin; now left).
    rewrite IH by (auto; intros s Hs; apply Hin; now right).
    apply tabulate_ext. intros s _.
    destruct (String.eqb_spec s a) as [-> | Hne]; simpl.
    + destruct (existsb (String.eqb a) suf) eqn:E; [| lia].
      apply mem_string_In in E. exfalso. apply Ha. now apply list_elem_of_In.
    + reflexivity.
Qed.

Lemma merge_tabulate (ss : list string) (f g : string -> nat) :
  NoDup ss ->
  merge_counts (tabulate ss f) (tabulate ss g) = tabulate ss (fun s => f s + g s).
Proof.
  intros Hnd. rewrite (merge_tabulate_same ss g Hnd ss f Hnd) by auto.
  apply tabulate_ext. intros s Hs.
  now rewrite (proj2 (mem_string_In s ss) Hs).
Qed.

Lemma pool_results_strings (ss : list string) (chunks : list (list string)) :
  NoDup ss ->
  pool_results chunks (map KStr ss) = map (partition_result ss) chunks.
Proof.
  intros Hnd. unfold pool_results. apply map_ext. intros chunk.
  unfold worker_function, worker_body, partition_result. simpl.
  rewrite zero_counts_tabulate by exact Hnd.
  now rewrite for_lines_strings by exact Hnd.
Qed.

Lemma collect_strings (ss : list string) (chunks : list (list string))
    (out : string) (m : nat) (f : string -> nat) (err : list string) :
  NoDup ss ->
  collect (mk_agg out m (tabulate ss f) err) (map (partition_result ss) chunks) =
  mk_agg (writelines out (map add_newline (matching ss (concat chunks))))
         (m + length (matching ss (concat chunks)))
         (tabulate ss (fun s => f s + credited ss (concat chunks) s))
         err.
Proof.
  intros Hnd. revert out m f.
  induction chunks as [| c chunks IH]; intros out m f.
  - simpl. rewrite Nat.add_0_r. f_equal. apply tabulate_ext. intros s _.
    unfold credited. simpl. lia.
  - change (collect ?st (map _ (c :: chunks)))
      with (collect (collect_step st (partition_result ss c))
                    (map (partition_result ss) chunks)).
    unfold collect_step at 1. simpl.
    rewrite (merge_tabulate ss f (credited ss c) Hnd).
    rewrite IH. rewrite matching_app, map_app, writelines_app, length_app.
    rewrite length_map. f_equal; [lia |].
    apply tabulate_ext. intros s _. rewrite credited_app. lia.
Qed.

(** For a set of string keys the collecting loop ends with the matching
    lines of the whole log in their order, their number, and for every key
    the number of lines whose first key it is, however the lines were
    partitioned; no line is written to the standard error. *)
Lemma filter_lines_strings (cpu : positive) (lines ss : list string) :
  NoDup ss ->
  filter_lines cpu lines (map KStr ss) =
  mk_agg (writelines "" (map add_newline (matching ss lines)))
         (length (matching ss lines))
         (match lines with
          | [] => []
          | _ :: _ => tabulate ss (credited ss lines)
          end)
         [].
Proof.
  intros Hnd. unfold filter_lines.
  rewrite (pool_results_strings ss _ Hnd).
  pose proof (partitions_concat lines (num_workers cpu (map KStr ss))) as Hc.
  destruct lines as [| l0 lines0]; [reflexivity |].
  set (lines := l0 :: lines0) in *.
  destruct (partitions lines (num_workers cpu (map KStr ss))) as [| c chunks];
    [discriminate |].
  change (collect ?st (map _ (c :: chunks)))
    with (collect (collect_step st (partition_result ss c))
                  (map (partition_result ss) chunks)).
  assert (Hstep : collect_step (mk_agg "" 0 [] []) (partition_result ss c) =
                  mk_agg (writelines "" (map add_newline (matching ss c)))
                         (length (matching ss c))
                         (tabulate ss (credited ss c)) []).
  { unfold collect_step, partition_result. simpl. rewrite length_map.
    f_equal. exact (merge_tabulate_fresh (credited ss c) ss [] Hnd). }
  rewrite Hstep.
  rewrite (collect_strings ss chunks _ _ _ _ Hnd).
  simpl in Hc. rewrite <- Hc.
  rewrite matching_app, List.map_app, writelines_app, length_app.
  f_equal. apply tabulate_ext. intros s _. now rewrite credited_app.
Qed.

Lemma find_is_existsb (f : string -> bool) (l : list string) :
  match List.find f l with Some _ => true | None => false end = existsb f l.
Proof.
  induction l as [| x l IH]; simpl; [reflexivity |].
  destruct (f x); [reflexivity | exact IH].
Qed.

Lemma existsb_perm (f : string -> bool) (l l' : list string) :
  Permutation l l' -> existsb f l = existsb f l'.
Proof.
  induction 1 as [| x l l' _ IH | x y l | l l' l'' _ IH1 _ IH2]; simpl.
  - reflexivity.
  - now rewrite IH.
  - destruct (f x), (f y); reflexivity.
  - now rewrite IH1.
Qed.

(** Which lines match does not depend on the order of the keys. *)
Lemma matching_perm (ss ss' lines : list string) :
  Permutation ss ss' -> matching ss lines = matching ss' lines.
Proof.
  intros H. unfold matching, first_key_in. apply filter_ext. intros l.
  rewrite !find_is_existsb. now apply existsb_perm.
Qed.

(** X10. With string keys the filtered log and the number of matched lines are
    the same for every iteration order of the filter set and every number
    of processors; only the counts per key depend on the order. *)
Lemma matched_lines_order_independent (cpu cpu' : positive)
    (lines ss ss' : list string) :
  NoDup ss -> NoDup ss' -> Permutation ss ss' ->
  outfile (filter_lines cpu lines (map KStr ss))
    = outfile (filter_lines cpu' lines (map KStr ss')) /\
  matched_lines (filter_lines cpu lines (map KStr ss))
    = matched_lines (filter_lines cpu' lines (map KStr ss')).
Proof.
  intros Hnd Hnd' Hp.
  rewrite (filter_lines_strings cpu lines ss Hnd).
  rewrite (filter_lines_strings cpu' lines ss' Hnd'). simpl.
  now rewrite (matching_perm ss ss' lines Hp).
Qed.

(** ** A call whose workers fail still returns its payload *)

Lemma filter_lines_stderr (cpu : positive) (lines : list string) (keys : list key) :
  stderr (filter_lines cpu lines keys) =
  repeat worker_error_line
    (failed_partitions
       (pool_results (partitions lines (num_workers cpu keys)) keys)).
Proof.
  unfold filter_lines.
  set (rs := pool_results _ keys).
  assert (Hrs : Forall failed_is_empty rs).
  { eapply List.Forall_impl; [| apply pool_results_ok].
    apply result_ok_failed_is_empty. }
  rewrite (collect_completed rs _ Hrs). simpl.
  now rewrite (collect_quiet _ _ (completed_not_failed rs)).
Qed.


(** ** The other validation failures, and the scenario of the spec *)

Example log_not_found :
  filter (Scenario.host Scenario.same_order 100)
         (Scenario.disk Scenario.levels_lines Scenario.levels_text)
         "/app/data/logs/other.log" Scenario.filter_path false
  = mk_outcome (Scenario.disk Scenario.levels_lines Scenario.levels_text) [] 0
      (Return (RError "Log file '/app/data/logs/other.log' not found.")).
Proof. vm_compute. reflexivity. Qed.

Example invalid_filter_format :
  filter (Scenario.host Scenario.same_order 100)
         (Scenario.disk Scenario.levels_lines Scenario.broken_text)
         Scenario.log_path Scenario.filter_path false
  = mk_outcome (Scenario.disk Scenario.levels_lines Scenario.broken_text) [] 0
      (Return (RError ("Invalid JSON in filter file: Expecting property name "
                       +:+ "enclosed in double quotes: line 1 column 2 (char 1)"))).
Proof. vm_compute. reflexivity. Qed.

Example output_conflict :
  let e := Scenario.host Scenario.same_order 100 in
  let s := Scenario.disk Scenario.levels_lines Scenario.levels_text in
  let s' := o_fs (filter e s Scenario.log_path Scenario.filter_path false) in
  filter (Scenario.host Scenario.same_order 200) s'
         Scenario.log_path Scenario.filter_path false
  = mk_outcome s' [] 0
      (Return (RError ("Folder '/app/src/log/../../data/filtered_logs/app' "
                       +:+ "already exists. Use overwrite=True to proceed."))).
Proof. vm_compute. reflexivity. Qed.

(** A filter file that is valid JSON but no collection makes [filter] raise:
    only [JSONDecodeError] is caught around [set(filters)]. *)
Example scalar_filter_raises :
  py_set (Scenario.host Scenario.same_order 100) (JNum 5)
  = Raise (TypeError "'int' object is not iterable").
Proof. reflexivity. Qed.

(** The scenario of the spec: four of the five lines match, three of them
    [ERROR] and one [WARN], and the filtered log holds lines 1, 3, 4 and 5
    in that order, each with a second line feed. *)
Example scenario_levels_output :
  read_content
    (o_fs (filter (Scenario.host Scenario.same_order 100)
                  (Scenario.disk Scenario.levels_lines Scenario.levels_text)
                  Scenario.log_path Scenario.filter_path false))
    Scenario.out_path
  = Scenario.text_of ["ERROR a" +:+ NL; "ERROR c" +:+ NL; "WARN d" +:+ NL;
                      "ERROR e" +:+ NL].
Proof. vm_compute. reflexivity. Qed.

(** Two keys of which one is part of the other: the line goes to the one
    the set yields first. *)
Example scenario_overlap :
  worker_function (["ERROR x"], [KStr "ERR"; KStr "ERROR"])
    = (["ERROR x" +:+ NL], Counts [(KStr "ERR", 1); (KStr "ERROR", 0)]) /\
  worker_function (["ERROR x"], [KStr "ERROR"; KStr "ERR"])
    = (["ERROR x" +:+ NL], Counts [(KStr "ERROR", 1); (KStr "ERR", 0)]).
Proof. split; reflexivity. Qed.

(** * More of the pipeline *)

(** ** How many chunks are submitted *)

Lemma range_from_reaches (n cs fuel start : nat) :
  1 <= cs ->
  n - start <= fuel ->
  n <= start + length (range_from fuel start n cs) * cs.
Proof.
  intros Hcs. revert start. induction fuel as [| fuel IH]; intros start Hf; simpl.
  - lia.
  - destruct (Nat.ltb_spec start n) as [Hlt | Hge]; simpl; [| lia].
    specialize (IH (start + cs)). lia.
Qed.

Lemma range_from_last_below (lines : list string) (cs fuel start : nat) :
  1 <= cs ->
  length (range_from fuel start (length lines) cs) <> 0 ->
  start + (length (range_from fuel start (length lines) cs) - 1) * cs
    < length lines.
Proof.
  intros Hcs Hne.
  set (rg := range_from fuel start (length lines) cs) in *.
  assert (Hk : length rg - 1 < length rg) by lia.
  pose proof (range_from_nth lines cs Hcs fuel start (length rg - 1) Hk) as Hn.
  fold rg in Hn. rewrite <- Hn.
  pose proof (range_from_below lines cs fuel start) as Hb.
  rewrite List.Forall_forall in Hb. apply Hb. now apply nth_In.
Qed.

(** The number of partitions of [n] lines for [w] workers lies between
    [min(w, n)] and [min(n, 2w - 1)]. *)
Lemma partitions_length_bounds (lines : list string) (w : nat) :
  1 <= w ->
  Nat.min w (length lines) <= length (partitions lines w) /\
  length (partitions lines w) <= Nat.min (length lines) (2 * w - 1).
Proof.
  intros Hw. unfold partitions, range. rewrite length_map.
  set (n := length lines).
  set (cs := chunk_size n w).
  pose proof (chunk_size_pos n w) as Hcs. fold cs in Hcs.
  set (L := length (range_from n 0 n cs)).
  assert (Hreach : n <= L * cs).
  { pose proof (range_from_reaches n cs n 0 Hcs) as H. fold L in H. lia. }
  assert (Hlast : L <> 0 -> (L - 1) * cs < n).
  { intros HL. pose proof (range_from_last_below lines cs n 0 Hcs) as H.
    fold n L in H. specialize (H HL). lia. }
  assert (Hdiv : n = w * (n / w) + n mod w) by (apply Nat.div_mod_eq).
  assert (Hmod : n mod w < w) by (apply Nat.mod_upper_bound; lia).
  unfold chunk_size in cs.
  destruct (Nat.eq_dec L 0) as [HL0 | HLpos].
  - rewrite HL0 in *. split; lia.
  - specialize (Hlast HLpos).
    destruct (Nat.eq_dec (n / w) 0) as [Hq0 | Hq].
    + assert (cs = 1) by (unfold cs; rewrite Hq0; reflexivity).
      split; lia.
    + assert (Hc : cs = n / w) by (unfold cs; lia).
      set (q := n / w) in *. split.
      * apply Nat.min_le_iff. left. nia.
      * apply Nat.min_glb; [nia |].
        destruct (Nat.le_gt_cases L (2 * w - 1)) as [Hok | Hbig]; [exact Hok |].
        exfalso. assert (Hge : 2 * w - 1 <= L - 1) by lia. nia.
Qed.

(** X1. The number of chunks [_parallel_filter] submits to the pool lies
    between [min(w, n)] and [min(n, 2w - 1)], where [n] is the number of
    lines read and [w] the number of workers: no chunk is empty, every
    worker gets a chunk when there are lines enough, and there can be more
    chunks than workers, but fewer than twice as many. *)
Theorem submitted_chunks_bounds (e : env) (s : fs) (log out : string)
    (keys : list key) (r : pf_out) :
  _parallel_filter e s log out keys = Return r ->
  let n := length (lines_read e s log out) in
  let w := num_workers (cpu_count e) keys in
  1 <= w /\ w <= Pos.to_nat (cpu_count e) /\
  Nat.min w n <= pf_submitted r /\
  pf_submitted r <= Nat.min n (2 * w - 1).
Proof.
  intros H n w. apply parallel_filter_inv in H as (_ & _ & ->). simpl.
  assert (Hw : 1 <= w /\ w <= Pos.to_nat (cpu_count e)).
  { unfold w, num_workers.
    pose proof (Pos2Nat.is_pos (cpu_count e)).
    destruct (length keys =? 0) eqn:E; [lia |].
    apply Nat.eqb_neq in E. lia. }
  destruct Hw as [Hw1 Hw2].
  pose proof (partitions_length_bounds (lines_read e s log out) w Hw1) as [Hlo Hhi].
  fold n in Hlo, Hhi. repeat split; assumption.
Qed.

Lemma submitted_chunks_bounds_witness :
  exists r,
    _parallel_filter (Scenario.host Scenario.same_order 100)
      (Scenario.disk Scenario.levels_lines Scenario.levels_text)
      Scenario.log_path Scenario.out_path [KStr "ERROR"; KStr "WARN"] = Return r /\
    pf_submitted r = 3 /\
    num_workers 4 [KStr "ERROR"; KStr "WARN"] = 2 /\
    Nat.min 2 5 <= pf_submitted r <= Nat.min 5 (2 * 2 - 1).
Proof.
  eexists. split; [vm_compute; reflexivity |].
  split; [vm_compute; reflexivity |].
  split; [reflexivity |].
  pose proof (submitted_chunks_bounds
                (Scenario.host Scenario.same_order 100)
                (Scenario.disk Scenario.levels_lines Scenario.levels_text)
                Scenario.log_path Scenario.out_path
                [KStr "ERROR"; KStr "WARN"] _ eq_refl) as (_ & _ & Hlo & Hhi).
  split; [exact Hlo | exact Hhi].
Defined.

(** ** More on the worker *)

Lemma prefix_spec (a b : string) :
  String.prefix a b = true <-> exists post, b = a +:+ post.
Proof.
  revert b. induction a as [| c a IH]; intros b; simpl.
  - split; [intros _; now exists b | intros _; now destruct b].
  - destruct b as [| c' b]; simpl.
    + split; [discriminate | intros [post H]; discriminate].
    + destruct (Ascii.ascii_dec c c') as [-> | Hne].
      * rewrite IH. split; intros [post H]; exists post.
        -- now rewrite H.
        -- now injection H.
      * split; [discriminate |].
        intros [post H]. injection H as H1 H2. congruence.
Qed.

(** [contains] decides the substring relation. *)
Lemma contains_spec (sub s : string) :
  contains sub s = true <-> occurs_in sub s.
Proof.
  unfold occurs_in. induction s as [| c s IH].
  - change (contains sub "") with (String.prefix sub "" || false).
    rewrite orb_false_r, prefix_spec. split.
    + intros [post H]. now exists "", post.
    + intros (pre & post & H). destruct pre; simpl in H; [now exists post |].
      discriminate.
  - change (contains sub (String c s))
      with (String.prefix sub (String c s) || contains sub s).
    rewrite orb_true_iff, prefix_spec, IH. split.
    + intros [[post H] | (pre & post & H)].
      * now exists "", post.
      * exists (String c pre), post. simpl. now rewrite H.
    + intros (pre & post & H). destruct pre as [| c' pre]; simpl in H.
      * left. now exists post.
      * right. injection H as _ H. now exists pre, post.
Qed.

Lemma first_key_None (ss : list string) (line : string) :
  first_key_in ss line = None <-> forall k, In k ss -> contains k line = false.
Proof.
  unfold first_key_in. split.
  - intros H k Hk. now apply (find_none _ _ H).
  - intros H. induction ss as [| a ss IH]; simpl; [reflexivity |].
    rewrite (H a) by now left. apply IH. intros k Hk. apply H. now right.
Qed.

Lemma list_filter_sublist (f : string -> bool) (l : list string) :
  sublist (List.filter f l) l.
Proof.
  induction l as [| x l IH]; simpl; [constructor |].
  destruct (f x); now constructor.
Qed.



Lemma filter_all_strings (f : string -> bool) (l : list string) :
  (forall x, In x l -> f x = true) -> List.filter f l = l.
Proof.
  induction l as [| x l IH]; simpl; intros H; [reflexivity |].
  rewrite (H x) by now left. f_equal. apply IH. intros y Hy. apply H. now right.
Qed.

(** X3. The empty string is a key that occurs in every line: a worker whose
    string keys include it returns its whole chunk. *)
Theorem empty_key_matches_every_line (ss : list string) (lines : list string) :
  NoDup ss -> In "" ss ->
  fst (worker_function (lines, map KStr ss)) = map add_newline lines.
Proof.
  intros Hnd Hin. unfold worker_function, worker_body. simpl.
  rewrite zero_counts_tabulate by exact Hnd.
  rewrite for_lines_strings by exact Hnd. simpl. f_equal.
  unfold matching. apply filter_all_strings. intros l _.
  destruct (first_key_in ss l) eqn:Hf; [reflexivity |].
  rewrite first_key_None in Hf. specialize (Hf "" Hin).
  destruct l; simpl in Hf; discriminate.
Qed.

Lemma NoDup_empty_key : NoDup [""; "WARN"].
Proof. apply NoDup_ListNoDup. repeat constructor; simpl; intuition discriminate. Qed.

Lemma empty_key_matches_every_line_witness :
  NoDup [""; "WARN"] /\ In "" [""; "WARN"] /\
  fst (worker_function (["INFO b"; "WARN d"], map KStr [""; "WARN"]))
  = ["INFO b" +:+ NL; "WARN d" +:+ NL].
Proof.
  split; [exact NoDup_empty_key |]. split; [now left |].
  apply (empty_key_matches_every_line [""; "WARN"] ["INFO b"; "WARN d"]).
  - exact NoDup_empty_key.
  - now left.
Defined.

(** ** The local counts of a worker *)

Lemma fold_set_keys_fresh (suf : list key) (d : dict) :
  NoDup (dict_keys d ++ suf) ->
  dict_keys (fold_left (fun d k => dict_set d k 0) suf d) = dict_keys d ++ suf.
Proof.
  revert d. induction suf as [| a suf IH]; intros d H; simpl.
  - now rewrite app_nil_r.
  - assert (Ha : ~ In a (dict_keys d)).
    { apply NoDup_app in H as (_ & H & _). intros Hin.
      apply list_elem_of_In in Hin. apply (H a Hin). now left. }
    assert (Hk : dict_keys (dict_set d a 0) = dict_keys d ++ [a]).
    { rewrite dict_keys_set. now rewrite (proj2 (dict_lookup_None d a) Ha). }
    rewrite IH; rewrite Hk, <- app_assoc; [reflexivity | exact H].
Qed.

Lemma zero_counts_keys (keys : list key) :
  NoDup keys -> dict_keys (zero_counts keys) = keys.
Proof. intros H. unfold zero_counts. now rewrite fold_set_keys_fresh. Qed.

Lemma dict_get_le_total (d : dict) (k : key) :
  dict_get d k 0 <= dict_total d.
Proof.
  unfold dict_get, dict_total, dict_values.
  induction d as [| [k' v] d IH]; simpl; [lia |].
  destruct (key_eqb k' k); lia.
Qed.

(** X4. The counts a worker returns list every filter key, in the
    iteration order of the set and with a zero for a key that credited no
    line; they add up to the number of lines returned, which is at most the
    number of lines of the chunk. This holds for keys of any type. *)
Theorem local_counts_list_every_key (lines : list string) (keys : list key)
    (filtered : list string) (d : dict) :
  NoDup keys ->
  worker_function (lines, keys) = (filtered, Counts d) ->
  dict_keys d = keys /\
  dict_total d = length filtered /\
  length filtered <= length lines /\
  forall k, dict_get d k 0 <= length filtered.
Proof.
  intros Hnd H.
  pose proof (worker_function_ok (lines, keys)) as Hok.
  pose proof (worker_function_sublist lines keys) as Hsub.
  rewrite H in Hok, Hsub. unfold result_ok in Hok. simpl in Hok, Hsub.
  apply sublist_length in Hsub. rewrite length_map in Hsub.
  split; [| split; [exact Hok | split; [exact Hsub |]]].
  - unfold worker_function, worker_body in H. simpl in H.
    destruct (for_lines keys lines _) as [st | ex] eqn:Hf; simpl in H;
      [| discriminate].
    injection H as _ <-. apply for_lines_keys in Hf. simpl in Hf.
    rewrite Hf. now apply zero_counts_keys.
  - intros k. rewrite <- Hok. apply dict_get_le_total.
Qed.

Lemma NoDup_mixed_keys : NoDup [KStr "ERROR"; KInt 7].
Proof. apply NoDup_ListNoDup. repeat constructor; simpl; intuition discriminate. Qed.

Lemma local_counts_list_every_key_witness :
  NoDup [KStr "ERROR"; KInt 7] /\
  worker_function (["ERROR a"; "ERROR b"], [KStr "ERROR"; KInt 7])
  = (["ERROR a" +:+ NL; "ERROR b" +:+ NL], Counts [(KStr "ERROR", 2); (KInt 7, 0)]) /\
  dict_keys [(KStr "ERROR", 2); (KInt 7, 0)] = [KStr "ERROR"; KInt 7].
Proof.
  split; [exact NoDup_mixed_keys |]. split; [reflexivity |].
  apply (local_counts_list_every_key ["ERROR a"; "ERROR b"] [KStr "ERROR"; KInt 7]
           ["ERROR a" +:+ NL; "ERROR b" +:+ NL]).
  - exact NoDup_mixed_keys.
  - reflexivity.
Defined.

(** ** When a worker fails *)

Lemma zero_counts_has_counters (keys : list key) :
  has_counters keys (zero_counts keys).
Proof.
  unfold has_counters, zero_counts. intros k Hk.
  rewrite dict_lookup_None. intros Hn. apply Hn. clear Hn.
  enough (G : forall ks d, In k ks \/ In k (dict_keys d) ->
                In k (dict_keys (fold_left (fun d k => dict_set d k 0) ks d))).
  { apply G. now left. }
  induction ks as [| a ks IH]; intros d [H | H]; simpl; try (simpl in H; tauto).
  - destruct H as [-> | H]; [| apply IH; now left].
    apply IH. right. rewrite dict_keys_set.
    destruct (dict_lookup d k) eqn:E.
    + destruct (dict_lookup_None d k) as [_ Hc].
      destruct (in_dec key_eq_dec k (dict_keys d)) as [Hi | Hi]; [exact Hi |].
      rewrite (Hc Hi) in E. discriminate.
    + apply in_app_iff. right. now left.
  - apply IH. right. rewrite dict_keys_set.
    destruct (dict_lookup d a); [exact H | apply in_app_iff; now left].
Qed.

Lemma has_counters_keys (keys : list key) (d d' : dict) :
  dict_keys d' = dict_keys d -> has_counters keys d -> has_counters keys d'.
Proof.
  unfold has_counters. intros Hk H k Hin. specialize (H k Hin).
  rewrite dict_lookup_None in *. now rewrite Hk.
Qed.

(** One line against string keys [pre] followed by a key [bad] that is no
    string: the line is kept when one of [pre] occurs in it, and the test
    of [bad] raises otherwise. *)
Lemma for_keys_bad_key (pre : list string) (bad : key) (post : list key)
    (line : string) (st : wstate) :
  is_str bad = false ->
  has_counters (map KStr pre ++ bad :: post) (local_counts st) ->
  match first_key_in pre line with
  | Some _ => exists st', for_keys (map KStr pre ++ bad :: post) line st = Return st'
  | None => exists ex, for_keys (map KStr pre ++ bad :: post) line st = Raise ex
  end.
Proof.
  intros Hbad Hc. unfold first_key_in.
  induction pre as [| a pre IH]; simpl.
  - destruct bad; [discriminate | |]; simpl; eauto.
  - destruct (contains a line) eqn:Ha; simpl.
    + unfold dict_getitem.
      destruct (dict_lookup (local_counts st) (KStr a)) as [c |] eqn:Hl; simpl.
      * eauto.
      * exfalso. apply (Hc (KStr a)); [now left | exact Hl].
    + apply IH. intros k Hk. apply Hc. now right.
Qed.

Lemma for_lines_bad_key (pre : list string) (bad : key) (post : list key)
    (lines : list string) (st : wstate) :
  is_str bad = false ->
  has_counters (map KStr pre ++ bad :: post) (local_counts st) ->
  (exists ex, for_lines (map KStr pre ++ bad :: post) lines st = Raise ex) <->
  (exists l, In l lines /\ first_key_in pre l = None).
Proof.
  intros Hbad. revert st.
  induction lines as [| l lines IH]; intros st Hc; simpl.
  - split; [intros [ex H]; discriminate | intros (l & [] & _)].
  - pose proof (for_keys_bad_key pre bad post l st Hbad Hc) as Hk.
    destruct (first_key_in pre l) as [s |] eqn:Hf.
    + destruct Hk as [st' Hk]. rewrite Hk. simpl.
      rewrite IH.
      * split; intros (l' & Hl' & Hn); exists l'.
        -- split; [now right | exact Hn].
        -- destruct Hl' as [<- | Hl']; [congruence | now split].
      * eapply has_counters_keys; [| exact Hc].
        now apply for_keys_keys in Hk.
    + destruct Hk as [ex Hk]. rewrite Hk. simpl.
      split; [intros _; exists l; split; [now left | exact Hf] | eauto].
Qed.

(** X5. A filter set in which a key that is no string comes after the
    string keys [pre]: the worker fails, and returns nothing, exactly when
    some line of its chunk contains none of [pre]; one such line discards
    the matches of the whole chunk. *)
Theorem worker_fails_iff_bad_key_reached (pre : list string) (bad : key)
    (post : list key) (lines : list string) :
  is_str bad = false ->
  (is_failed (worker_function (lines, map KStr pre ++ bad :: post)) = true <->
   exists l, In l lines /\ first_key_in pre l = None) /\
  (is_failed (worker_function (lines, map KStr pre ++ bad :: post)) = true ->
   fst (worker_function (lines, map KStr pre ++ bad :: post)) = []).
Proof.
  intros Hbad.
  pose proof (for_lines_bad_key pre bad post lines
                (mk_wstate [] (zero_counts (map KStr pre ++ bad :: post)))
                Hbad (zero_counts_has_counters _)) as H.
  unfold worker_function, worker_body, is_failed. simpl.
  destruct (for_lines _ lines _) as [st | ex]; simpl; split.
  - rewrite <- H. split; [discriminate | intros [ex He]; discriminate].
  - discriminate.
  - rewrite <- H. split; [eauto | reflexivity].
  - reflexivity.
Qed.

Lemma worker_fails_iff_bad_key_reached_witness :
  is_str (KInt 7) = false /\
  is_failed (worker_function (["ERROR a"; "INFO b"], map KStr ["ERROR"] ++ KInt 7 :: []))
  = true /\
  fst (worker_function (["ERROR a"; "INFO b"], map KStr ["ERROR"] ++ KInt 7 :: [])) = [].
Proof.
  split; [reflexivity |].
  destruct (worker_fails_iff_bad_key_reached ["ERROR"] (KInt 7) []
              ["ERROR a"; "INFO b"] eq_refl) as [Hiff Hempty].
  assert (Hf : is_failed (worker_function
                 (["ERROR a"; "INFO b"], map KStr ["ERROR"] ++ KInt 7 :: [])) = true).
  { apply Hiff. exists "INFO b". split; [right; now left | reflexivity]. }
  split; [exact Hf | exact (Hempty Hf)].
Defined.

(** ** Totals and counts of the collecting loop *)

(** X6. What [_parallel_filter] returns as the number of matched lines is at
    most the number of lines it read, and no aggregate count exceeds it. *)
Theorem matched_at_most_lines_read (e : env) (s : fs) (log out : string)
    (keys : list key) (r : pf_out) :
  _parallel_filter e s log out keys = Return r ->
  pf_matched_lines r <= length (lines_read e s log out) /\
  forall k, dict_get (pf_filter_counts r) k 0 <= pf_matched_lines r.
Proof.
  intros H. apply parallel_filter_inv in H as (_ & _ & ->). simpl.
  set (lines := lines_read e s log out).
  destruct (filter_lines_ok (cpu_count e) lines keys) as [Hsum _].
  split.
  - unfold filter_lines.
    destruct (collect_outfile
                (pool_results (partitions lines (num_workers (cpu_count e) keys)) keys)
                (mk_agg "" 0 [] [])) as [_ Hm].
    rewrite Hm. simpl.
    pose proof (pool_results_sublist
                  (partitions lines (num_workers (cpu_count e) keys)) keys) as Hs.
    apply sublist_length in Hs.
    rewrite partitions_concat, length_map in Hs. exact Hs.
  - intros k. rewrite <- Hsum. apply dict_get_le_total.
Qed.

Lemma matched_at_most_lines_read_witness :
  exists r,
    _parallel_filter (Scenario.host Scenario.same_order 100)
      (Scenario.disk Scenario.levels_lines Scenario.levels_text)
      Scenario.log_path Scenario.out_path [KStr "ERROR"; KStr "WARN"] = Return r /\
    pf_matched_lines r = 4 /\
    pf_matched_lines r
      <= length (lines_read (Scenario.host Scenario.same_order 100)
                   (Scenario.disk Scenario.levels_lines Scenario.levels_text)
                   Scenario.log_path Scenario.out_path).
Proof.
  eexists. split; [vm_compute; reflexivity |].
  split; [vm_compute; reflexivity |].
  refine (proj1 (matched_at_most_lines_read
                   (Scenario.host Scenario.same_order 100)
                   (Scenario.disk Scenario.levels_lines Scenario.levels_text)
                   Scenario.log_path Scenario.out_path
                   [KStr "ERROR"; KStr "WARN"] _ _)).
  vm_compute. reflexivity.
Defined.

Lemma dict_get_set (d : dict) (k k' : key) (v : nat) :
  dict_get (dict_set d k v) k' 0 = if key_eqb k k' then v else dict_get d k' 0.
Proof.
  unfold dict_get. key_cases k k'.
  - subst. now rewrite dict_lookup_set_eq.
  - now rewrite dict_lookup_set_ne.
Qed.

Lemma dict_get_cons (a k : key) (c : nat) (its : dict) :
  dict_get ((a, c) :: its) k 0 = if key_eqb a k then c else dict_get its k 0.
Proof. unfold dict_get. simpl. now destruct (key_eqb a k). Qed.

(** Merging the items of a dictionary adds, for every key, its count. *)
Lemma merge_counts_get (its : list (key * nat)) (fc : dict) (k : key) :
  NoDup (map fst its) ->
  dict_get (merge_counts fc its) k 0 = dict_get fc k 0 + dict_get its k 0.
Proof.
  unfold merge_counts. revert fc.
  induction its as [| [a c] its IH]; intros fc Hnd.
  - simpl. unfold dict_get at 3. simpl. lia.
  - change (map fst ((a, c) :: its)) with (a :: map fst its) in Hnd.
    apply NoDup_cons in Hnd as [Ha Hnd].
    cbn [fold_left fst snd].
    rewrite IH by exact Hnd. rewrite dict_get_set, dict_get_cons.
    key_cases a k; [| reflexivity].
    subst a.
    assert (Hk : dict_get its k 0 = 0).
    { unfold dict_get. rewrite (proj2 (dict_lookup_None its k)); [reflexivity |].
      intros Hin. apply Ha. now apply list_elem_of_In. }
    lia.
Qed.

Lemma fold_set_NoDup (ks : list key) (d : dict) :
  NoDup (dict_keys d) ->
  NoDup (dict_keys (fold_left (fun d k => dict_set d k 0) ks d)).
Proof.
  revert d. induction ks as [| a ks IH]; intros d H; simpl; [exact H |].
  apply IH. now apply dict_set_NoDup.
Qed.

Lemma worker_function_distinct_keys (args : list string * list key) :
  distinct_keys (worker_function args).
Proof.
  unfold distinct_keys, worker_function, worker_body.
  destruct (for_lines (snd args) (fst args) _) as [st | ex] eqn:H; simpl;
    [| exact I].
  apply for_lines_keys in H. simpl in H. rewrite H.
  unfold zero_counts. apply fold_set_NoDup. constructor.
Qed.

Lemma collect_get (rs : list (list string * worker_counts)) (st : agg) (k : key) :
  Forall distinct_keys rs ->
  dict_get (filter_counts (collect st rs)) k 0 =
  dict_get (filter_counts st) k 0 + list_sum (map (fun r => local_count r k) rs).
Proof.
  revert st. induction rs as [| r rs IH]; intros st Hrs.
  - simpl. lia.
  - inversion Hrs as [| ? ? Hr Hrs']; subst.
    change (collect st (r :: rs)) with (collect (collect_step st r) rs).
    rewrite (IH _ Hrs'). simpl.
    unfold collect_step, local_count, distinct_keys in *.
    destruct r as [fl [d | msg]]; simpl in *.
    + rewrite merge_counts_get by exact Hr. lia.
    + lia.
Qed.

Lemma pool_results_distinct_keys (chunks : list (list string)) (keys : list key) :
  Forall distinct_keys (pool_results chunks keys).
Proof.
  unfold pool_results. apply List.Forall_map, List.Forall_forall.
  intros chunk _. apply worker_function_distinct_keys.
Qed.

(** X7. The aggregate count of a key is the sum of the counts the
    partitions hold for it; a failed partition adds nothing, and a key no
    partition has counted has the aggregate count zero. *)
Theorem aggregate_count_is_sum_of_local_counts (cpu : positive)
    (lines : list string) (keys : list key) (k : key) :
  dict_get (filter_counts (filter_lines cpu lines keys)) k 0 =
  list_sum (map (fun r => local_count r k)
                (pool_results (partitions lines (num_workers cpu keys)) keys)).
Proof.
  unfold filter_lines.
  rewrite collect_get by apply pool_results_distinct_keys.
  reflexivity.
Qed.

Lemma length_concat_sum (l : list (list string)) :
  length (concat l) = list_sum (map (@length string) l).
Proof.
  induction l as [| x l IH]; simpl; [reflexivity |].
  now rewrite length_app, IH.
Qed.

(** X8. Reading the results of the partitions in another order changes
    neither the number of matched lines nor any aggregate count: the
    reduction of the counts does not depend on the order, only the filtered
    log does. *)
Theorem counts_do_not_depend_on_result_order (chunks : list (list string))
    (keys : list key) (rs' : list (list string * worker_counts)) (st : agg) :
  Permutation (pool_results chunks keys) rs' ->
  matched_lines (collect st rs') = matched_lines (collect st (pool_results chunks keys)) /\
  forall k, dict_get (filter_counts (collect st rs')) k 0
            = dict_get (filter_counts (collect st (pool_results chunks keys))) k 0.
Proof.
  intros Hp.
  assert (Hd : Forall distinct_keys rs').
  { eapply Permutation_Forall; [exact Hp | apply pool_results_distinct_keys]. }
  split.
  - destruct (collect_outfile rs' st) as [_ ->].
    destruct (collect_outfile (pool_results chunks keys) st) as [_ ->].
    rewrite !length_concat_sum. f_equal.
    apply list_sum_perm. symmetry.
    rewrite !map_map. now apply Permutation_map.
  - intros k. rewrite (collect_get rs' st k Hd).
    rewrite (collect_get _ st k (pool_results_distinct_keys chunks keys)).
    f_equal. apply list_sum_perm. symmetry. now apply Permutation_map.
Qed.

Lemma counts_do_not_depend_on_result_order_witness :
  let rs := pool_results [["ERROR a"]; ["WARN b"; "ERROR c"]] [KStr "ERROR"; KStr "WARN"] in
  Permutation rs (rev rs) /\
  matched_lines (collect (mk_agg "" 0 [] []) (rev rs)) = 3 /\
  outfile (collect (mk_agg "" 0 [] []) (rev rs))
    <> outfile (collect (mk_agg "" 0 [] []) rs).
Proof.
  cbv zeta. split; [apply Permutation_rev |]. split.
  - rewrite (proj1 (counts_do_not_depend_on_result_order
                      [["ERROR a"]; ["WARN b"; "ERROR c"]]
                      [KStr "ERROR"; KStr "WARN"] _ (mk_agg "" 0 [] [])
                      (Permutation_rev _))).
    reflexivity.
  - vm_compute. discriminate.
Defined.

(** ** String keys, end to end *)

Lemma filter_none_strings (f : string -> bool) (l : list string) :
  (forall x, In x l -> f x = false) -> List.filter f l = [].
Proof.
  induction l as [| x l IH]; simpl; intros H; [reflexivity |].
  rewrite (H x) by now left. apply IH. intros y Hy. apply H. now right.
Qed.



Lemma NoDup_two_keys_swapped : NoDup ["WARN"; "ERROR"].
Proof. apply NoDup_ListNoDup. repeat constructor; simpl; intuition discriminate. Qed.

Lemma matched_lines_order_independent_witness :
  NoDup ["ERROR"; "WARN"] /\ NoDup ["WARN"; "ERROR"] /\
  Permutation ["ERROR"; "WARN"] ["WARN"; "ERROR"] /\
  matched_lines (filter_lines 4 ["ERROR a"; "WARN and ERROR b"; "INFO c"]
                              (map KStr ["ERROR"; "WARN"]))
  = matched_lines (filter_lines 1 ["ERROR a"; "WARN and ERROR b"; "INFO c"]
                                (map KStr ["WARN"; "ERROR"])).
Proof.
  split; [exact NoDup_two_keys |]. split; [exact NoDup_two_keys_swapped |].
  split; [apply perm_swap |].
  apply (matched_lines_order_independent 4 1
           ["ERROR a"; "WARN and ERROR b"; "INFO c"] ["ERROR"; "WARN"] ["WARN"; "ERROR"]).
  - exact NoDup_two_keys.
  - exact NoDup_two_keys_swapped.
  - apply perm_swap.
Defined.

(** ** A filter file that is a JSON object *)

Lemma hash_all_names (names : list string) :
  hash_all (map JStr names) = Return (map KStr names).
Proof.
  induction names as [| a names IH]; simpl; [reflexivity |].
  now rewrite IH.
Qed.

Lemma strings_of_keys (keys : list key) :
  Forall (fun k => is_str k = true) keys -> exists ss, keys = map KStr ss.
Proof.
  induction 1 as [| k keys Hk _ [ss ->]].
  - now exists [].
  - destruct k as [a | |]; try discriminate. now exists (a :: ss).
Qed.

Lemma NoDup_map_KStr (ss : list string) : NoDup (map KStr ss) -> NoDup ss.
Proof.
  induction ss as [| a ss IH]; simpl; intros H; [constructor |].
  apply NoDup_cons in H as [Ha H]. apply NoDup_cons. split; [| now apply IH].
  intros Hin. apply Ha. apply list_elem_of_In. apply in_map.
  now apply list_elem_of_In.
Qed.

(** The keys of a call whose filter file is an object are the names of the
    object, without duplicates, as strings. *)
Lemma run_keys_of_object (e : env) (s : fs) (fp : string)
    (obj : list (string * json)) :
  (forall l, Permutation (set_order e l) l) ->
  json_load e (read_content s fp) = inl (Return (JObj obj)) ->
  exists ss, run_keys e s fp = map KStr ss /\ NoDup ss /\
             forall a, In a ss <-> In a (map fst obj).
Proof.
  intros Hperm Hj.
  pose (ks := remove_dups (map KStr (map fst obj))).
  assert (Hrun : run_keys e s fp = set_order e ks).
  { unfold run_keys. rewrite Hj. unfold py_set. simpl.
    rewrite <- (map_map fst JStr), hash_all_names. reflexivity. }
  rewrite Hrun.
  assert (Hmem : forall k, In k (set_order e ks) <->
                           exists a, k = KStr a /\ In a (map fst obj)).
  { intros k. split.
    - intros Hk. apply (Permutation_in _ (Hperm ks)) in Hk.
      apply list_elem_of_In in Hk. unfold ks in Hk.
      rewrite elem_of_remove_dups in Hk. apply list_elem_of_In in Hk.
      apply in_map_iff in Hk as (a & <- & Ha). now exists a.
    - intros (a & -> & Ha).
      apply (Permutation_in _ (Permutation_sym (Hperm ks))).
      apply list_elem_of_In. unfold ks.
      rewrite elem_of_remove_dups. apply list_elem_of_In. now apply in_map. }
  assert (Hstr : Forall (fun k => is_str k = true) (set_order e ks)).
  { apply List.Forall_forall. intros k Hk.
    apply Hmem in Hk as (a & -> & _). reflexivity. }
  destruct (strings_of_keys _ Hstr) as [ss Hss].
  exists ss. split; [exact Hss |]. split.
  - apply NoDup_map_KStr. rewrite <- Hss.
    apply NoDup_ListNoDup.
    eapply Permutation_NoDup; [symmetry; apply Hperm |].
    apply NoDup_ListNoDup, NoDup_remove_dups.
  - intros a. split; intros Ha.
    + assert (Hk : In (KStr a) (set_order e ks))
        by (rewrite Hss; now apply in_map).
      apply Hmem in Hk as (a' & [= ->] & Hin). exact Hin.
    + assert (Hk : In (KStr a) (set_order e ks))
        by (apply Hmem; now exists a).
      rewrite Hss in Hk. apply in_map_iff in Hk as (a' & [= ->] & Hin).
      exact Hin.
Qed.

(** X11. When the filter file is a JSON object, as the spec has it, its
    names are the filter keys and all of them are strings: no partition of
    the call fails and the call writes nothing to the standard error,
    whatever the log holds. *)
Theorem object_filter_never_fails (e : env) (s : fs) (lp fp : string)
    (obj : list (string * json)) :
  (forall l, Permutation (set_order e l) l) ->
  json_load e (read_content s fp) = inl (Return (JObj obj)) ->
  (forall k, In k (run_keys e s fp) <-> exists a, k = KStr a /\ In a (map fst obj)) /\
  failed_partitions (run_results e s lp fp) = 0 /\
  stderr (run_state e s lp fp) = [].
Proof.
  intros Hperm Hj.
  destruct (run_keys_of_object e s fp obj Hperm Hj) as (ss & Hk & Hnd & Hin).
  split; [| split].
  - intros k. rewrite Hk, in_map_iff. split.
    + intros (a & <- & Ha). exists a. split; [reflexivity | now apply Hin].
    + intros (a & -> & Ha). exists a. split; [reflexivity | now apply Hin].
  - assert (Hs : stderr (run_state e s lp fp) = []).
    { unfold run_state. rewrite Hk.
      now rewrite (filter_lines_strings _ _ ss Hnd). }
    unfold run_state in Hs. rewrite filter_lines_stderr in Hs.
    unfold run_results.
    destruct (failed_partitions _); [reflexivity | discriminate].
  - unfold run_state. rewrite Hk.
    now rewrite (filter_lines_strings _ _ ss Hnd).
Qed.

Lemma object_filter_never_fails_witness :
  (forall l, Permutation (set_order (Scenario.host Scenario.same_order 100) l) l) /\
  failed_partitions
    (run_results (Scenario.host Scenario.same_order 100)
                 (Scenario.disk Scenario.levels_lines Scenario.levels_text)
                 Scenario.log_path Scenario.filter_path) = 0.
Proof.
  assert (Hp : forall l, Permutation
                 (set_order (Scenario.host Scenario.same_order 100) l) l)
    by (intros l; reflexivity).
  split; [exact Hp |].
  refine (proj1 (proj2 (object_filter_never_fails
                          (Scenario.host Scenario.same_order 100)
                          (Scenario.disk Scenario.levels_lines Scenario.levels_text)
                          Scenario.log_path Scenario.filter_path
                          [("ERROR", JBool true); ("WARN", JBool true)] Hp _))).
  vm_compute. reflexivity.
Defined.

(** ** Ties in the payload *)

Lemma insert_desc_stable (c : nat) (x : key * nat) (l : list (key * nat)) :
  List.filter (fun kc => snd kc =? c) (insert_desc x l)
  = List.filter (fun kc => snd kc =? c) (x :: l).
Proof.
  induction l as [| y l IH]; [reflexivity |].
  cbn [insert_desc].
  destruct (Nat.leb_spec (snd y) (snd x)) as [Hle | Hgt]; [reflexivity |].
  cbn [List.filter] in *. rewrite IH.
  destruct (Nat.eqb_spec (snd x) c) as [Hx | Hx];
    destruct (Nat.eqb_spec (snd y) c) as [Hy | Hy]; try reflexivity.
  lia.
Qed.

(** [sorted] is stable: items of equal count keep their order. *)
Lemma sorted_desc_stable (c : nat) (l : list (key * nat)) :
  List.filter (fun kc => snd kc =? c) (sorted_desc l)
  = List.filter (fun kc => snd kc =? c) l.
Proof.
  induction l as [| x l IH]; [reflexivity |].
  cbn [sorted_desc]. rewrite insert_desc_stable.
  cbn [List.filter]. now rewrite IH.
Qed.

Lemma filter_filter (f g : key * nat -> bool) (l : list (key * nat)) :
  List.filter f (List.filter g l) = List.filter (fun x => f x && g x) l.
Proof.
  induction l as [| x l IH]; simpl; [reflexivity |].
  destruct (g x); simpl; rewrite ?andb_true_r, ?andb_false_r;
    [destruct (f x) |]; now rewrite IH.
Qed.


(** ** What a call leaves on disk *)

Lemma append_inj_l (a x y : string) : a +:+ x = a +:+ y -> x = y.
Proof.
  induction a as [| c a IH]; simpl; [auto |].
  intros H. injection H as H. now apply IH.
Qed.

(** The filtered log and the metadata file are different files. *)
Lemma output_ne_metadata (e : env) (lp : string) :
  output_file e lp <> metadata_file e lp.
Proof.
  unfold output_file, metadata_file. intros H.
  repeat apply append_inj_l in H. discriminate.
Qed.


Lemma filter_stops_at_existing_folder (e : env) (s : fs) (lp fp : string) :
  path_exists s (log_folder e lp) = true ->
  exists res, filter e s lp fp false = mk_outcome s [] 0 res /\
              forall p, res <> Return (RPayload p).
Proof.
  intros Hd. unfold filter.
  destruct (negb (path_exists s lp)); [eexists; split; [reflexivity | discriminate] |].
  destruct (negb (path_exists s fp)); [eexists; split; [reflexivity | discriminate] |].
  destruct (open_read s fp); [| eexists; split; [reflexivity | discriminate]].
  destruct (json_load e (read_content s fp)) as [[filters | ex] | msg];
    [| eexists; split; [reflexivity | discriminate]
     | eexists; split; [reflexivity | discriminate]].
  destruct (py_set e filters) as [keys | ex];
    [| eexists; split; [reflexivity | discriminate]].
  destruct (length keys =? 0); [eexists; split; [reflexivity | discriminate] |].
  rewrite Hd. simpl. eexists; split; [reflexivity | discriminate].
Qed.

(** X14. When the log folder exists and [overwrite] is not set, [filter]
    changes nothing on disk, submits nothing to the pool and returns no
    payload, whatever the state of the log and of the filter file. *)
Theorem existing_folder_is_left_alone (e : env) (s : fs) (lp fp : string) :
  path_exists s (log_folder e lp) = true ->
  o_fs (filter e s lp fp false) = s /\
  o_submitted (filter e s lp fp false) = 0 /\
  o_stderr (filter e s lp fp false) = [] /\
  forall p, o_result (filter e s lp fp false) <> Return (RPayload p).
Proof.
  intros Hd.
  destruct (filter_stops_at_existing_folder e s lp fp Hd) as (res & -> & Hres).
  simpl. repeat split. exact Hres.
Qed.

Lemma payload_leaves_folder (e : env) (s : fs) (lp fp : string) (ow : bool)
    (p : payload) :
  o_result (filter e s lp fp ow) = Return (RPayload p) ->
  path_exists (o_fs (filter e s lp fp ow)) (log_folder e lp) = true.
Proof.
  intros H. apply filter_payload_inv in H as (r & _ & Hpf & -> & _).
  apply parallel_filter_inv in Hpf as (_ & _ & ->).
  unfold path_exists. simpl. apply orb_true_iff. right.
  apply bool_decide_eq_true. set_solver.
Qed.

(** X15. After a call that returned a payload, a call for the same log
    from the same directory without [overwrite] returns no payload and
    changes nothing on disk: the folder of the first call is in the way. *)
Theorem second_call_needs_overwrite (e e' : env) (s : fs) (lp fp fp' : string)
    (ow : bool) (p : payload) :
  directory e' = directory e ->
  o_result (filter e s lp fp ow) = Return (RPayload p) ->
  let s' := o_fs (filter e s lp fp ow) in
  o_fs (filter e' s' lp fp' false) = s' /\
  forall p', o_result (filter e' s' lp fp' false) <> Return (RPayload p').
Proof.
  intros Hdir H s'.
  assert (Hd : path_exists s' (log_folder e' lp) = true).
  { unfold log_folder. rewrite Hdir. apply (payload_leaves_folder e s lp fp ow p H). }
  destruct (filter_stops_at_existing_folder e' s' lp fp' Hd) as (res & -> & Hres).
  simpl. split; [reflexivity | exact Hres].
Qed.

(** X16. When [filter] returns a payload, the metadata file holds the dump
    of exactly that payload, and the filtered log still holds what the
    collecting loop wrote: writing the metadata does not touch it. *)
Theorem payload_is_persisted (e : env) (s : fs) (lp fp : string) (ow : bool)
    (p : payload) :
  o_result (filter e s lp fp ow) = Return (RPayload p) ->
  let s' := o_fs (filter e s lp fp ow) in
  read_content s' (metadata_file e lp) = json_dump e p /\
  read_content s' (output_file e lp) = outfile (run_state e s lp fp).
Proof.
  intros H. cbv zeta.
  apply filter_payload_inv in H as (r & _ & Hpf & -> & _).
  apply parallel_filter_inv in Hpf as (_ & _ & ->).
  cbn [o_fs pf_fs]. split.
  - apply read_content_write_eq.
  - rewrite read_content_write_ne
      by (intros E; symmetry in E; now apply output_ne_metadata in E).
    apply read_content_write_eq.
Qed.

Lemma existing_folder_is_left_alone_witness :
  let e := Scenario.host Scenario.same_order 100 in
  let s := o_fs (filter e (Scenario.disk Scenario.levels_lines Scenario.levels_text)
                        Scenario.log_path Scenario.filter_path false) in
  path_exists s (log_folder (Scenario.host Scenario.same_order 200) Scenario.log_path)
    = true /\
  o_fs (filter (Scenario.host Scenario.same_order 200) s
               Scenario.log_path Scenario.filter_path false) = s.
Proof.
  cbv zeta. split; [vm_compute; reflexivity |].
  refine (proj1 (existing_folder_is_left_alone
                   (Scenario.host Scenario.same_order 200) _
                   Scenario.log_path Scenario.filter_path _)).
  vm_compute. reflexivity.
Defined.

Lemma second_call_needs_overwrite_witness :
  let e := Scenario.host Scenario.same_order 100 in
  let e' := Scenario.host Scenario.same_order 200 in
  let s := Scenario.disk Scenario.levels_lines Scenario.levels_text in
  directory e' = directory e /\
  o_result (filter e s Scenario.log_path Scenario.filter_path false)
    = Return (RPayload Scenario.levels_payload) /\
  o_fs (filter e' (o_fs (filter e s Scenario.log_path Scenario.filter_path false))
               Scenario.log_path Scenario.filter_path false)
  = o_fs (filter e s Scenario.log_path Scenario.filter_path false).
Proof.
  cbv zeta. split; [reflexivity |].
  split; [vm_compute; reflexivity |].
  refine (proj1 (second_call_needs_overwrite
                   (Scenario.host Scenario.same_order 100)
                   (Scenario.host Scenario.same_order 200)
                   (Scenario.disk Scenario.levels_lines Scenario.levels_text)
                   Scenario.log_path Scenario.filter_path Scenario.filter_path
                   false Scenario.levels_payload eq_refl _)).
  vm_compute. reflexivity.
Defined.

Lemma payload_is_persisted_witness :
  let e := Scenario.host Scenario.same_order 100 in
  let s := Scenario.disk Scenario.levels_lines Scenario.levels_text in
  o_result (filter e s Scenario.log_path Scenario.filter_path false)
    = Return (RPayload Scenario.levels_payload) /\
  read_content (o_fs (filter e s Scenario.log_path Scenario.filter_path false))
               (metadata_file e Scenario.log_path)
  = json_dump e Scenario.levels_payload.
Proof.
  cbv zeta. split; [vm_compute; reflexivity |].
  refine (proj1 (payload_is_persisted
                   (Scenario.host Scenario.same_order 100)
                   (Scenario.disk Scenario.levels_lines Scenario.levels_text)
                   Scenario.log_path Scenario.filter_path false
                   Scenario.levels_payload _)).
  vm_compute. reflexivity.
Defined.

(** ** A filter file that is no collection of keys *)

Lemma hash_all_cases (l : list json) :
  if forallb scalar l
  then exists ks, hash_all l = Return ks
  else exists msg, hash_all l = Raise (TypeError msg).
Proof.
  induction l as [| j l IH]; simpl; [now exists [] |].
  destruct j; simpl;
    try (destruct (forallb scalar l); destruct IH as [x ->]; simpl; eauto);
    eauto.
Qed.

Lemma py_set_cases (e : env) (j : json) :
  if key_collection j
  then exists ks, py_set e j = Return ks
  else exists msg, py_set e j = Raise (TypeError msg).
Proof.
  unfold py_set. destruct j as [| b | n | a | l | obj]; simpl; eauto.
  - pose proof (hash_all_cases
                  (map (fun c => JStr (String c "")) (list_ascii_of_string a))) as H.
    assert (Hs : forallb scalar
                   (map (fun c => JStr (String c "")) (list_ascii_of_string a)) = true).
    { apply forallb_forall. intros x Hx.
      apply in_map_iff in Hx as (c & <- & _). reflexivity. }
    rewrite Hs in H. destruct H as [ks ->]. simpl. eauto.
  - pose proof (hash_all_cases l) as H.
    destruct (forallb scalar l); destruct H as [x ->]; simpl; eauto.
  - pose proof (hash_all_cases (map (fun kv => JStr (fst kv)) obj)) as H.
    assert (Hs : forallb scalar (map (fun kv => JStr (fst kv)) obj) = true).
    { apply forallb_forall. intros x Hx.
      apply in_map_iff in Hx as (c & <- & _). reflexivity. }
    rewrite Hs in H. destruct H as [ks ->]. simpl. eauto.
Qed.

(** X17. A filter file that is valid JSON but neither an object, a string
    nor an array of scalars makes [filter] raise a [TypeError] instead of
    returning an error value: [set(filters)] fails and only a
    [JSONDecodeError] is caught. Nothing on disk has changed by then. *)
Theorem filter_raises_on_unusable_json (e : env) (s : fs) (lp fp : string)
    (ow : bool) (j : json) :
  is_Some (files s !! lp) ->
  is_Some (files s !! fp) ->
  json_load e (read_content s fp) = inl (Return j) ->
  key_collection j = false ->
  exists msg, filter e s lp fp ow = mk_outcome s [] 0 (Raise (TypeError msg)).
Proof.
  intros Hl Hf Hj Hk. unfold filter.
  rewrite (path_exists_file _ _ Hl), (path_exists_file _ _ Hf). simpl.
  unfold open_read. destruct Hf as [f ->]. rewrite Hj.
  pose proof (py_set_cases e j) as H. rewrite Hk in H.
  destruct H as [msg ->]. now exists msg.
Qed.

Lemma filter_raises_on_unusable_json_witness :
  let e := mk_env "/app/src/log" 4%positive 100 101
             (fun n => "T" +:+ pretty n) (fun n => "at " +:+ pretty n)
             (fun _ => inl (Return (JNum 5))) (fun _ => "{}") Scenario.same_order
             (fun _ => "00") (fun _ => (4096, 0, 0)) in
  let s := Scenario.disk Scenario.levels_lines "5" in
  key_collection (JNum 5) = false /\
  exists msg,
    filter e s Scenario.log_path Scenario.filter_path false
    = mk_outcome s [] 0 (Raise (TypeError msg)).
Proof.
  cbv zeta. split; [reflexivity |].
  apply (filter_raises_on_unusable_json _ _ _ _ false (JNum 5)).
  - eexists. vm_compute. reflexivity.
  - eexists. vm_compute. reflexivity.
  - reflexivity.
  - reflexivity.
Defined.

(** ** Reading the log *)

Lemma append_assoc_str (a b c : string) : (a +:+ b) +:+ c = a +:+ (b +:+ c).
Proof.
  induction a as [| x a IH]; [reflexivity |].
  change (String x ((a +:+ b) +:+ c) = String x (a +:+ (b +:+ c))). now f_equal.
Qed.

Lemma append_empty_r (a : string) : a +:+ "" = a.
Proof.
  induction a as [| x a IH]; [reflexivity |].
  change (String x (a +:+ "") = String x a). now f_equal.
Qed.

Lemma concat_empty_cons (x : string) (xs : list string) :
  String.concat "" (x :: xs) = x +:+ String.concat "" xs.
Proof.
  destruct xs; simpl; [now rewrite append_empty_r | reflexivity].
Qed.

Lemma split_lines_join (s cur : string) :
  String.concat "" (split_lines cur s) = cur +:+ s.
Proof.
  revert cur. induction s as [| c s IH]; intros cur.
  - cbn [split_lines]. destruct (String.eqb_spec cur "") as [-> | Hne];
      simpl; [reflexivity |]. now rewrite append_empty_r.
  - cbn [split_lines]. destruct (Ascii.eqb_spec c LF) as [-> | Hne].
    + rewrite concat_empty_cons, IH, append_assoc_str. reflexivity.
    + rewrite IH, append_assoc_str. reflexivity.
Qed.

Lemma split_lines_nonempty (s cur : string) :
  Forall (fun l => l <> "") (split_lines cur s).
Proof.
  revert cur. induction s as [| c s IH]; intros cur; cbn [split_lines].
  - destruct (String.eqb_spec cur ""); repeat constructor. assumption.
  - destruct (Ascii.eqb c LF); [| apply IH].
    constructor; [| apply IH].
    destruct cur; discriminate.
Qed.

Lemma universal_newlines_no_cr (s : string) :
  no_cr s = true -> universal_newlines s = s.
Proof.
  induction s as [| c s IH]; [reflexivity |].
  cbn [no_cr universal_newlines]. intros H.
  apply andb_true_iff in H as [Hc Hs].
  apply negb_true_iff in Hc. rewrite Hc. now rewrite IH.
Qed.

(** X18. The lines [_parallel_filter] reads from the log, joined, are the
    text of the log with its line ends read as line feeds, and none of them
    is empty: splitting into lines loses and adds nothing. For a log
    without carriage returns the joined lines are the text itself. *)
Theorem readlines_joined_is_the_text (content : string) :
  String.concat "" (readlines content) = universal_newlines content /\
  Forall (fun l => l <> "") (readlines content) /\
  (no_cr content = true -> String.concat "" (readlines content) = content).
Proof.
  unfold readlines. split; [| split].
  - apply (split_lines_join _ "").
  - apply split_lines_nonempty.
  - intros H. rewrite (split_lines_join _ "").
    now apply universal_newlines_no_cr.
Qed.

Lemma readlines_joined_is_the_text_witness :
  no_cr (Scenario.text_of Scenario.levels_lines) = true /\
  String.concat "" (readlines (Scenario.text_of Scenario.levels_lines))
  = Scenario.text_of Scenario.levels_lines.
Proof.
  split; [reflexivity |].
  apply (proj2 (proj2 (readlines_joined_is_the_text
                         (Scenario.text_of Scenario.levels_lines)))).
  reflexivity.
Defined.

(** ** The line count of the payload *)

(** X19. In the payload of a call on a log without carriage returns, the
    file information is that of the log as the call found it: its name,
    its size in bytes, and as [lines] the number of lines the call read
    and partitioned. The call must not be given its own filtered log as
    the log. *)
Theorem payload_counts_the_lines_read (e : env) (s : fs) (lp fp : string)
    (ow : bool) (p : payload) :
  o_result (filter e s lp fp ow) = Return (RPayload p) ->
  lp <> output_file e lp ->
  no_cr (read_content s lp) = true ->
  exists i,
    meta_file p = Info i /\
    file_name i = path_name lp /\
    file_size i = pretty (String.length (read_content s lp)) +:+ " bytes" /\
    lines i = inl (length (run_lines e s lp)).
Proof.
  intros H Hne Hcr.
  apply filter_payload_inv in H as (r & _ & Hpf & _ & ->).
  apply parallel_filter_inv in Hpf as ([f Hf] & _ & ->).
  cbn [meta_file pf_fs]. simpl in Hf.
  assert (Hlook : files (write_file
                           (write_file (makedirs s (log_folder e lp))
                                       (output_file e lp) "" (now e))
                           (output_file e lp)
                           (outfile (filter_lines (cpu_count e)
                              (lines_read e (makedirs s (log_folder e lp)) lp
                                          (output_file e lp))
                              (run_keys e s fp)))
                           (now_end e)) !! lp = Some f).
  { simpl. rewrite !lookup_insert_ne by congruence. exact Hf. }
  unfold get_info. rewrite (path_exists_file _ _ (ex_intro _ f Hlook)).
  cbn [negb]. rewrite Hlook.
  assert (Hc : f_content f = read_content s lp).
  { unfold read_content. now rewrite Hf. }
  eexists. split; [reflexivity |]. cbn [file_name file_size lines].
  rewrite Hc. repeat split. f_equal.
  unfold run_lines, lines_read, count_lines, readlines.
  rewrite read_content_write_ne by congruence.
  rewrite read_content_makedirs.
  now rewrite (universal_newlines_no_cr _ Hcr).
Qed.

Lemma payload_counts_the_lines_read_witness :
  let e := Scenario.host Scenario.same_order 100 in
  let s := Scenario.disk Scenario.levels_lines Scenario.levels_text in
  o_result (filter e s Scenario.log_path Scenario.filter_path false)
    = Return (RPayload Scenario.levels_payload) /\
  exists i, meta_file Scenario.levels_payload = Info i /\
            lines i = inl (length (run_lines e s Scenario.log_path)).
Proof.
  cbv zeta. split; [vm_compute; reflexivity |].
  destruct (payload_counts_the_lines_read
              (Scenario.host Scenario.same_order 100)
              (Scenario.disk Scenario.levels_lines Scenario.levels_text)
              Scenario.log_path Scenario.filter_path false Scenario.levels_payload)
    as (i & Hi & _ & _ & Hl).
  - vm_compute. reflexivity.
  - vm_compute. discriminate.
  - vm_compute. reflexivity.
  - exists i. split; assumption.
Defined.

(** ** The hash of a file *)

Lemma string_take_drop (n : nat) (s : string) :
  string_take n s +:+ string_drop n s = s.
Proof.
  revert s. induction n as [| n IH]; intros s; [reflexivity |].
  destruct s as [| c s]; [reflexivity |].
  change (String c (string_take n s +:+ string_drop n s) = String c s).
  now rewrite IH.
Qed.

Lemma string_drop_length (n : nat) (s : string) :
  String.length (string_drop n s) = String.length s - n.
Proof.
  revert s. induction n as [| n IH]; intros s; simpl; [lia |].
  destruct s as [| c s]; simpl; [reflexivity | apply IH].
Qed.

Lemma string_take_empty (n : nat) (s : string) :
  1 <= n -> string_take n s = "" -> s = "".
Proof.
  intros Hn. destruct n as [| n]; [lia |].
  destruct s; [reflexivity | discriminate].
Qed.

Lemma hash_chunks_all (H : hasher) (chunk_size fuel : nat) (rest : string)
    (h : h_state H) :
  streaming H -> 1 <= chunk_size -> String.length rest < fuel ->
  hash_chunks H fuel chunk_size rest h = h_update H h rest.
Proof.
  intros [Hcat Hnil] Hcs. revert rest h.
  induction fuel as [| fuel IH]; intros rest h Hf; [lia |].
  cbn [hash_chunks].
  destruct (String.eqb_spec (string_take chunk_size rest) "") as [He | Hne].
  - apply (string_take_empty _ _ Hcs) in He. subst rest. now rewrite Hnil.
  - rewrite IH.
    + rewrite Hcat. now rewrite string_take_drop.
    + rewrite string_drop_length.
      destruct rest as [| c rest]; simpl in *; [| lia].
      destruct chunk_size; simpl in Hne; congruence.
Qed.

(** X20. For a hasher that can be fed piecewise, the digest
    [_compute_file_hash] returns for a file is the digest of the whole
    content fed at once, whatever positive chunk size the file is read
    with; read with a chunk size of zero, nothing is fed at all. *)
Theorem file_hash_ignores_chunk_size (H : hasher) (s : fs) (file_path : string)
    (f : file) (chunk_size : nat) :
  streaming H ->
  files s !! file_path = Some f ->
  (1 <= chunk_size ->
   _compute_file_hash H s file_path chunk_size
   = h_hexdigest H (h_update H (h_new H) (f_content f))) /\
  _compute_file_hash H s file_path 0 = h_hexdigest H (h_new H).
Proof.
  intros Hs Hf. unfold _compute_file_hash. rewrite Hf. split.
  - intros Hcs. f_equal. apply hash_chunks_all; auto.
  - reflexivity.
Qed.

Lemma file_hash_ignores_chunk_size_witness :
  let H := mk_hasher string "" (fun h chunk => h +:+ chunk) (fun h => h) in
  let s := Scenario.disk Scenario.levels_lines Scenario.levels_text in
  streaming H /\
  _compute_file_hash H s Scenario.log_path 7
  = Scenario.text_of Scenario.levels_lines.
Proof.
  cbv zeta.
  assert (Hs : streaming (mk_hasher string "" (fun h chunk => h +:+ chunk) (fun h => h))).
  { split; simpl.
    - intros h a b. apply append_assoc_str.
    - intros h. apply append_empty_r. }
  split; [exact Hs |].
  destruct (file_hash_ignores_chunk_size
              (mk_hasher string "" (fun h chunk => h +:+ chunk) (fun h => h))
              (Scenario.disk Scenario.levels_lines Scenario.levels_text)
              Scenario.log_path
              (mk_file (Scenario.text_of Scenario.levels_lines) 10 20) 7 Hs)
    as [Hpos _].
  - vm_compute. reflexivity.
  - rewrite Hpos by lia. reflexivity.
Defined.

(** ** The progress bar *)

Lemma progress_loop_invariant (gets : list queue_get) (processed pbar : Z) :
  progress_loop gets processed pbar =
  if existsb is_done gets
  then Some ((processed + Z.of_nat (list_sum (updates_before_done gets)))%Z,
             (pbar + Z.of_nat (list_sum (updates_before_done gets)))%Z)
  else None.
Proof.
  revert processed pbar.
  induction gets as [| g gets IH]; intros processed pbar; [reflexivity |].
  destruct g as [u | |]; cbn [progress_loop existsb is_done orb updates_before_done].
  - rewrite IH. destruct (existsb is_done gets); [| reflexivity].
    change (list_sum (u :: updates_before_done gets))
      with (u + list_sum (updates_before_done gets)).
    f_equal. f_equal; lia.
  - change (list_sum []) with 0. f_equal. f_equal; lia.
  - apply IH.
Qed.

Lemma progress_bar_ends_at_total_eq (gets : list queue_get) (total_lines : nat) :
  update_progress_bar gets total_lines =
  if existsb is_done gets
  then Some (Z.of_nat total_lines,
             (Z.of_nat total_lines
              - Z.of_nat (list_sum (updates_before_done gets)))%Z)
  else None.
Proof.
  unfold update_progress_bar. rewrite progress_loop_invariant.
  destruct (existsb is_done gets); [| reflexivity].
  f_equal. f_equal; lia.
Qed.

(** X21. [update_progress_bar] ends exactly when a ["DONE"] arrives, and
    then the bar stands at [total_lines], whatever numbers and timeouts
    came before and whatever follows in the queue; its last update moves
    the bar by [total_lines] less the sum of the numbers received. *)
Theorem progress_bar_ends_at_total (gets : list queue_get) (total_lines : nat) :
  (In GotDone gets ->
   update_progress_bar gets total_lines
   = Some (Z.of_nat total_lines,
           (Z.of_nat total_lines
            - Z.of_nat (list_sum (updates_before_done gets)))%Z)) /\
  (~ In GotDone gets -> update_progress_bar gets total_lines = None).
Proof.
  rewrite progress_bar_ends_at_total_eq.
  destruct (existsb is_done gets) eqn:E.
  - split; [reflexivity |]. intros Hn. exfalso. apply Hn.
    apply existsb_exists in E as (g & Hg & Hd). now destruct g.
  - split; [| reflexivity]. intros Hin.
    assert (Ht : existsb is_done gets = true)
      by (apply existsb_exists; now exists GotDone).
    congruence.
Qed.

Lemma progress_bar_ends_at_total_witness :
  In GotDone [Got 1; TimedOut; Got 2; GotDone; Got 9] /\
  update_progress_bar [Got 1; TimedOut; Got 2; GotDone; Got 9] 5
  = Some (5%Z, 2%Z).
Proof.
  split; [simpl; tauto |].
  rewrite (proj1 (progress_bar_ends_at_total
                    [Got 1; TimedOut; Got 2; GotDone; Got 9] 5))
    by (simpl; tauto).
  reflexivity.
Defined.

(** X22. When the numbers that reach the progress bar before ["DONE"] are
    the numbers of lines the partitions of a run returned, in whatever
    order their workers finished, the last update of the bar is the number
    of lines read less the number of matched lines, which is not negative:
    the bar never moves backwards. *)
Theorem progress_bar_last_update (cpu : positive) (lines : list string)
    (keys : list key) (gets : list queue_get) :
  existsb is_done gets = true ->
  Permutation (updates_before_done gets)
    (map (fun r => length (fst r))
         (pool_results (partitions lines (num_workers cpu keys)) keys)) ->
  exists last,
    update_progress_bar gets (length lines) = Some (Z.of_nat (length lines), last) /\
    last = (Z.of_nat (length lines)
            - Z.of_nat (matched_lines (filter_lines cpu lines keys)))%Z /\
    (0 <= last)%Z.
Proof.
  intros Hd Hp. rewrite progress_bar_ends_at_total_eq, Hd.
  set (rs := pool_results (partitions lines (num_workers cpu keys)) keys) in *.
  assert (Hm : matched_lines (filter_lines cpu lines keys)
               = list_sum (updates_before_done gets)).
  { unfold filter_lines. fold rs.
    destruct (collect_outfile rs (mk_agg "" 0 [] [])) as [_ ->]. simpl.
    rewrite length_concat_sum, (list_sum_perm _ _ Hp).
    now rewrite map_map. }
  eexists. split; [reflexivity |]. rewrite <- Hm. split; [reflexivity |].
  assert (Hle : matched_lines (filter_lines cpu lines keys) <= length lines).
  { unfold filter_lines. fold rs.
    destruct (collect_outfile rs (mk_agg "" 0 [] [])) as [_ ->]. simpl.
    pose proof (pool_results_sublist
                  (partitions lines (num_workers cpu keys)) keys) as Hs.
    apply sublist_length in Hs.
    rewrite partitions_concat, length_map in Hs. exact Hs. }
  lia.
Qed.

Lemma progress_bar_last_update_witness :
  let gets := [Got 0; TimedOut; Got 1; Got 1; GotDone] in
  let lines := ["ERROR a"; "INFO b"; "WARN c"] in
  let keys := [KStr "ERROR"; KStr "WARN"; KStr "x"] in
  existsb is_done gets = true /\
  exists last,
    update_progress_bar gets (length lines) = Some (3%Z, last) /\
    (0 <= last)%Z.
Proof.
  cbv zeta. split; [reflexivity |].
  destruct (progress_bar_last_update 4
              ["ERROR a"; "INFO b"; "WARN c"]
              [KStr "ERROR"; KStr "WARN"; KStr "x"]
              [Got 0; TimedOut; Got 1; Got 1; GotDone])
    as (last & H1 & _ & H3).
  - reflexivity.
  - vm_compute. apply perm_swap.
  - exists last. split; assumption.
Defined.

(** ** Counting lines *)

Lemma split_lines_no_lf (tail cur : string) :
  no_lf tail = true ->
  split_lines cur tail = if String.eqb (cur +:+ tail) "" then [] else [cur +:+ tail].
Proof.
  revert cur. induction tail as [| c tail IH]; intros cur H.
  - cbn [split_lines]. now rewrite append_empty_r.
  - cbn [no_lf] in H. apply andb_true_iff in H as [Hc Ht].
    apply negb_true_iff in Hc. cbn [split_lines]. rewrite Hc.
    rewrite (IH _ Ht), append_assoc_str. reflexivity.
Qed.

Lemma split_lines_line (l rest cur : string) :
  no_lf l = true ->
  split_lines cur (l +:+ NL +:+ rest) = (cur +:+ l +:+ NL) :: split_lines "" rest.
Proof.
  revert cur. induction l as [| c l IH]; intros cur H.
  - change ("" +:+ NL +:+ rest) with (String LF rest).
    cbn [split_lines]. now rewrite Ascii.eqb_refl.
  - cbn [no_lf] in H. apply andb_true_iff in H as [Hc Hl].
    apply negb_true_iff in Hc.
    change (String c l +:+ NL +:+ rest) with (String c (l +:+ NL +:+ rest)).
    cbn [split_lines]. rewrite Hc. rewrite (IH _ Hl).
    now rewrite append_assoc_str.
Qed.

Lemma split_lines_join_lines (ls : list string) (tail : string) :
  Forall (fun l => no_lf l = true) ls -> no_lf tail = true ->
  split_lines "" (join_lines ls +:+ tail)
  = map add_newline ls ++ (if String.eqb tail "" then [] else [tail]).
Proof.
  intros Hls Ht. induction Hls as [| l ls Hl _ IH].
  - change (split_lines "" tail = if String.eqb tail "" then [] else [tail]).
    exact (split_lines_no_lf tail "" Ht).
  - cbn [join_lines]. rewrite !append_assoc_str.
    rewrite (split_lines_line l _ "" Hl). rewrite IH. reflexivity.
Qed.

(** X23. [_count_lines] counts one line per line feed, and one more for a
    last line that is not ended by a line feed: a file of [n] terminated
    lines has [n] lines, with an unterminated rest it has [n + 1], and the
    empty file has none. *)
Theorem count_lines_counts_unterminated_rest (ls : list string) (tail : string) :
  Forall (fun l => no_lf l = true) ls ->
  no_lf tail = true ->
  count_lines (join_lines ls +:+ tail)
  = length ls + (if String.eqb tail "" then 0 else 1).
Proof.
  intros Hls Ht. unfold count_lines.
  rewrite (split_lines_join_lines ls tail Hls Ht).
  rewrite length_app, length_map. now destruct (String.eqb tail "").
Qed.

Lemma count_lines_counts_unterminated_rest_witness :
  Forall (fun l => no_lf l = true) ["ERROR a"; "INFO b"] /\
  no_lf "WARN c" = true /\
  count_lines (join_lines ["ERROR a"; "INFO b"] +:+ "WARN c") = 3 /\
  count_lines "" = 0.
Proof.
  assert (H : Forall (fun l => no_lf l = true) ["ERROR a"; "INFO b"])
    by (repeat constructor).
  split; [exact H |]. split; [reflexivity |]. split; [| reflexivity].
  rewrite (count_lines_counts_unterminated_rest ["ERROR a"; "INFO b"] "WARN c" H eq_refl).
  reflexivity.
Defined.

(** ** Concrete inputs for the lemmas on sums and on failed partitions *)

Lemma parallel_filter_counts_sum_witness :
  exists r,
    _parallel_filter (Scenario.host Scenario.same_order 100)
      (Scenario.disk ["ERROR a"; "INFO b"] Scenario.number_text)
      Scenario.log_path Scenario.out_path [KStr "ERROR"; KInt 7] = Return r /\
    dict_total (pf_filter_counts r) = pf_matched_lines r /\
    pf_matched_lines r = 1.
Proof.
  eexists. split; [vm_compute; reflexivity |]. split.
  - refine (parallel_filter_counts_sum
              (Scenario.host Scenario.same_order 100)
              (Scenario.disk ["ERROR a"; "INFO b"] Scenario.number_text)
              Scenario.log_path Scenario.out_path [KStr "ERROR"; KInt 7] _ _).
    vm_compute. reflexivity.
  - vm_compute. reflexivity.
Defined.

Lemma hits_sum_without_total_key_witness :
  let e := Scenario.host Scenario.same_order 100 in
  let s := Scenario.disk Scenario.levels_lines Scenario.levels_text in
  o_result (filter e s Scenario.log_path Scenario.filter_path false)
    = Return (RPayload Scenario.levels_payload) /\
  hits_total (hits Scenario.levels_payload) = 4 /\
  hits_key_sum (hits Scenario.levels_payload) = hits_total (hits Scenario.levels_payload).
Proof.
  cbv zeta. split; [vm_compute; reflexivity |]. split; [reflexivity |].
  refine (proj2 (hits_sum_without_total_key
                   (Scenario.host Scenario.same_order 100)
                   (Scenario.disk Scenario.levels_lines Scenario.levels_text)
                   Scenario.log_path Scenario.filter_path false
                   Scenario.levels_payload _ _)).
  - vm_compute. reflexivity.
  - vm_compute. reflexivity.
Defined.


(** ** The version line of the command line *)

Lemma first_line_no_lf (s : string) : no_lf (first_line s) = true.
Proof.
  induction s as [| c s IH]; [reflexivity |].
  cbn [first_line]. destruct (Ascii.eqb c LF) eqn:E; [reflexivity |].
  cbn [no_lf]. now rewrite E, IH.
Qed.

Lemma first_line_prefix (s : string) : exists rest, s = first_line s +:+ rest.
Proof.
  induction s as [| c s [rest IH]]; [now exists "" |].
  cbn [first_line]. destruct (Ascii.eqb c LF).
  - now exists (String c s).
  - exists rest. change (String c s = String c (first_line s +:+ rest)).
    now f_equal.
Qed.

Lemma string_take_no_lf (n : nat) (s : string) :
  no_lf s = true -> no_lf (string_take n s) = true.
Proof.
  revert s. induction n as [| n IH]; intros s H; [reflexivity |].
  destruct s as [| c s]; [reflexivity |].
  cbn [no_lf string_take] in *. apply andb_true_iff in H as [Hc Hs].
  now rewrite Hc, IH.
Qed.

Lemma prefix_extend (sub a b : string) :
  String.prefix sub a = true -> String.prefix sub (a +:+ b) = true.
Proof.
  rewrite !prefix_spec. intros [post ->]. exists (post +:+ b).
  apply append_assoc_str.
Qed.

Lemma str_find_unfold (sub s : string) :
  str_find sub s =
  if String.prefix sub s then Some 0
  else match s with
       | EmptyString => None
       | String _ rest => option_map S (str_find sub rest)
       end.
Proof. destruct s; reflexivity. Qed.

Lemma contains_unfold (sub s : string) :
  contains sub s =
  String.prefix sub s ||
  match s with
  | EmptyString => false
  | String _ rest => contains sub rest
  end.
Proof. destruct s; reflexivity. Qed.

(** Nothing before the first occurrence holds an occurrence. *)
Lemma str_find_Some (sub s : string) (i : nat) :
  sub <> "" -> str_find sub s = Some i ->
  contains sub (string_take i s) = false.
Proof.
  intros Hsub. revert i. induction s as [| c s IH]; intros i.
  - rewrite str_find_unfold.
    destruct (String.prefix sub "") eqn:Hp.
    + destruct sub; [congruence | discriminate].
    + discriminate.
  - rewrite str_find_unfold.
    destruct (String.prefix sub (String c s)) eqn:Hp.
    + intros [= <-]. cbn [string_take]. rewrite contains_unfold.
      destruct sub; [congruence | reflexivity].
    + destruct (str_find sub s) as [j |] eqn:Hf; [| discriminate].
      cbn [option_map]. intros [= <-]. cbn [string_take].
      rewrite contains_unfold, (IH j eq_refl), orb_false_r.
      destruct (String.prefix sub (String c (string_take j s))) eqn:Hq;
        [| reflexivity].
      apply (prefix_extend _ _ (string_drop j s)) in Hq.
      change (String c (string_take j s) +:+ string_drop j s)
        with (String c (string_take j s +:+ string_drop j s)) in Hq.
      rewrite string_take_drop in Hq. congruence.
Qed.

Lemma str_find_None (sub s : string) :
  str_find sub s = None -> contains sub s = false.
Proof.
  induction s as [| c s IH]; rewrite str_find_unfold, contains_unfold.
  - destruct (String.prefix sub ""); [discriminate | reflexivity].
  - destruct (String.prefix sub (String c s)); [discriminate |].
    destruct (str_find sub s); [discriminate |]. intros _. now rewrite IH.
Qed.

Lemma string_take_prefix (n : nat) (s : string) :
  exists rest, s = string_take n s +:+ rest.
Proof. exists (string_drop n s). symmetry. apply string_take_drop. Qed.

(** X27. Asked for the short version, the command line prints a beginning
    of the first line of the version file: the text has no line feed, does
    not contain the marker [(cli)], and the text of the file starts with
    it. *)
Theorem short_version_stops_before_marker (content : string)
    (verbose : option string) :
  is_verbose verbose = false ->
  no_lf (version (Some content) verbose) = true /\
  contains "(cli)" (version (Some content) verbose) = false /\
  exists rest, universal_newlines content = version (Some content) verbose +:+ rest.
Proof.
  intros Hv. unfold version. rewrite Hv.
  set (full := universal_newlines content).
  destruct (first_line_prefix full) as [rest Hrest].
  assert (Hne : "(cli)" <> "") by discriminate.
  destruct (str_find "(cli)" (first_line full)) as [i |] eqn:Hf.
  - split; [apply string_take_no_lf, first_line_no_lf |].
    split; [apply (str_find_Some _ _ _ Hne Hf) |].
    destruct (string_take_prefix i (first_line full)) as [rest' Hr'].
    exists (rest' +:+ rest). rewrite <- append_assoc_str, <- Hr'. exact Hrest.
  - split; [apply first_line_no_lf |].
    split; [now apply str_find_None |].
    now exists rest.
Qed.

Lemma short_version_stops_before_marker_witness :
  is_verbose None = false /\
  version (Some ("noiseless 1.2 (cli) build 7" +:+ NL +:+ "more")) None
  = "noiseless 1.2 " /\
  contains "(cli)"
    (version (Some ("noiseless 1.2 (cli) build 7" +:+ NL +:+ "more")) None) = false.
Proof.
  split; [reflexivity |]. split; [reflexivity |].
  apply (short_version_stops_before_marker
           ("noiseless 1.2 (cli) build 7" +:+ NL +:+ "more") None).
  reflexivity.
Defined.
